(** * IRLS MAP solver: cost and gradient callbacks

    A shallow embedding of
      - src/solvers/irls_map_solver.cpp
      - src/optimization/alglib_irls_objective.cpp
    and the properties the specification states about them.

    C++ [double] is IEEE binary64, which is what the kernel's primitive
    floats are, so arithmetic is carried out with [PrimFloat] and every
    expression keeps the association order of the source.  The general
    theorems do not depend on any property of rounding; the concrete
    evaluations use small integers, which every evaluation order and
    precision computes exactly.  Fallible operations (glog's CHECK_NOTNULL,
    std::vector::at, unchecked indexing) live in the [outcome] monad.
    Pixel and image counts and loop counters are [nat]; [int] arguments a
    caller chooses are [Z]. *)

From Stdlib Require Import List ZArith Lia Bool PrimFloat.
Import ListNotations.

Set Implicit Arguments.

(** ** Numbers *)

Definition double : Set := float.

Declare Scope dbl_scope.
Delimit Scope dbl_scope with dbl.
Bind Scope dbl_scope with double.
Notation "x + y" := (PrimFloat.add x y) : dbl_scope.
Notation "x - y" := (PrimFloat.sub x y) : dbl_scope.
Notation "x * y" := (PrimFloat.mul x y) : dbl_scope.

(** The literals the source uses ([0], [2] and [1.0], converted to double). *)
Definition d0 : double := 0%float.
Definition d1 : double := 1%float.
Definition d2 : double := 2%float.

(** Bit-level discrimination of two doubles, to separate concrete values
    without any axiom on floating point. *)
Definition same_double (x y : double) : bool := PrimFloat.eqb x y.

(** ** Outcomes of a call

    [CheckFailed]: a glog CHECK aborted the process.
    [OutOfRange]: std::out_of_range thrown by [std::vector::at].
    [Undefined]: undefined behaviour (unchecked index out of bounds, integer
    division by zero). *)

Inductive outcome (A : Type) : Type :=
| Ok (a : A)
| CheckFailed
| OutOfRange
| Undefined.

Arguments CheckFailed {A}.
Arguments OutOfRange {A}.
Arguments Undefined {A}.

Definition bind {A B : Type} (m : outcome A) (k : A -> outcome B) : outcome B :=
  match m with
  | Ok a => k a
  | CheckFailed => CheckFailed
  | OutOfRange => OutOfRange
  | Undefined => Undefined
  end.

Notation "x <- m ;; k" := (bind m (fun x => k))
  (at level 61, m at next level, right associativity).
Notation "' pat <- m ;; k" := (bind m (fun x => match x with pat => k end))
  (at level 61, pat pattern, m at next level, right associativity).

(** [for (int i = start; i < start + count; ++i) body] over a loop state. *)
Fixpoint for_range {St : Type} (body : nat -> St -> outcome St)
         (start count : nat) (st : St) : outcome St :=
  match count with
  | O => Ok st
  | S c => st' <- body start st ;; for_range body (S start) c st'
  end.

(** ** std::vector and raw arrays *)

(** [v.at(i)] *)
Definition vec_at {A : Type} (v : list A) (i : nat) : outcome A :=
  match nth_error v i with
  | Some x => Ok x
  | None => OutOfRange
  end.

(** [v.at(i)] for a signed [int] index: a negative index converts to a huge
    [size_t] and is out of range. *)
Definition vec_at_int {A : Type} (v : list A) (i : Z) : outcome A :=
  if (i <? 0)%Z then OutOfRange else vec_at v (Z.to_nat i).

(** [v[i]] read *)
Definition vec_index {A : Type} (v : list A) (i : nat) : outcome A :=
  match nth_error v i with
  | Some x => Ok x
  | None => Undefined
  end.

(** [v[i] = x] *)
Definition vec_store {A : Type} (v : list A) (i : nat) (x : A) : outcome (list A) :=
  if i <? length v then Ok (firstn i v ++ x :: skipn (S i) v)
  else Undefined.

(** [std::vector<double> v(n)]: n value-initialised doubles. *)
Definition vec_new (n : nat) : list double := repeat d0 n.

(** [v.resize(n)] *)
Definition vec_resize (n : nat) (v : list double) : list double :=
  firstn n v ++ repeat d0 (n - length v).

(** [std::fill(v.begin(), v.end(), x)] *)
Definition vec_fill {A : Type} (x : A) (v : list A) : list A :=
  map (fun _ => x) v.

(** [const double*]: [None] is the null pointer. *)
Definition double_ptr : Type := option (list double).

(** glog's [CHECK_NOTNULL(p)] *)
Definition CHECK_NOTNULL {A : Type} (p : option A) : outcome A :=
  match p with
  | Some a => Ok a
  | None => CheckFailed
  end.

(** [alglib::real_1d_array] and its [getcontent()]. *)
Definition real_1d_array : Type := list double.
Definition getcontent (a : real_1d_array) : double_ptr := Some a.

(** ** Collaborators declared outside src/ *)

(** [cv::Size] *)
Record Size : Set := mkSize { width : Z; height : Z }.

Inductive InterpolationMethod : Set := INTER_NEAREST.

(** The [ImageData] class (image/image_data.h).  Its members are taken as
    parameters; [None] as interpolation stands for the default argument of
    [ResizeImage]. *)
Class ImageDataApi : Type := {
  ImageData : Type;
  ImageData_of_pixels : list double -> Size -> ImageData;
  GetPixelValue : ImageData -> Z -> Z -> double;
  ResizeImage : ImageData -> Size -> option InterpolationMethod -> ImageData;
  GetMutableDataPointer : ImageData -> Z -> list double
}.

(** The [ImageModel] member [image_model_] (image_model/image_model.h); the
    C++ methods update the image they are handed, here they return it. *)
Class ImageModelApi `{ImageDataApi} : Type := {
  ImageModel_ApplyToImage : ImageData -> Z -> ImageData;
  ImageModel_ApplyTransposeToImage : ImageData -> Z -> ImageData;
  GetDownsamplingScale : Z
}.

(** The polymorphic [Regularizer] interface: one record per object. *)
Record Regularizer : Type := {
  ApplyToImage : list double -> list double;
  GetDerivatives : list double -> list double -> list double
}.

(** ** The solver object

    [num_pixels_] and [num_images_] are the values of the accessors
    [GetNumPixels()] and [GetNumImages()], which the header (not under src/)
    defines; neither depends on the weight table. *)
Record IrlsMapSolver `{ImageDataApi} : Type := mkSolver {
  image_size_ : Size;
  observations_ : list ImageData;
  regularizers_ : list (Regularizer * double);
  irls_weights_ : list double;
  num_pixels_ : nat;
  num_images_ : nat
}.

Definition GetNumPixels `{ImageDataApi} (s : IrlsMapSolver) : nat := num_pixels_ s.
Definition GetNumImages `{ImageDataApi} (s : IrlsMapSolver) : nat := num_images_ s.

Definition set_irls_weights `{ImageDataApi} (w : list double) (s : IrlsMapSolver)
  : IrlsMapSolver :=
  {| image_size_ := image_size_ s;
     observations_ := observations_ s;
     regularizers_ := regularizers_ s;
     irls_weights_ := w;
     num_pixels_ := num_pixels_ s;
     num_images_ := num_images_ s |}.

(** [a / b] on C++ [int]: truncating; a zero divisor and the overflowing
    quotient INT_MIN / -1 are undefined. *)
Definition int_div (a b : Z) : outcome Z :=
  if (b =? 0)%Z then Undefined
  else if ((a =? - 2 ^ 31) && (b =? -1))%Z then Undefined
  else Ok (Z.quot a b).

(** The two components of a returned [std::pair<double, std::vector<double>>]. *)
Definition cost_of (r : outcome (double * list double)) : outcome double :=
  p <- r ;; Ok (fst p).
Definition gradient_of (r : outcome (double * list double)) : outcome (list double) :=
  p <- r ;; Ok (snd p).

(** ** What an ALGLIB callback reaches

    The solver object behind the [void*] argument, the two output references
    [residual_sum] and [gradient] the minimizer owns, and the lines written
    with LOG(INFO) (the residual sums reported). *)
Record Session (Solver : Type) : Type := mkSession {
  the_solver : Solver;
  residual_sum_ref : double;
  gradient_ref : real_1d_array;
  info_log : list double
}.

(** [for (i = 0; i < num_pixels; ++i) gradient[i] = 0;] *)
Definition zero_gradient (num_pixels : nat) (gradient : real_1d_array)
  : outcome real_1d_array :=
  for_range (fun i gradient => vec_store gradient i d0) 0 num_pixels gradient.

(** Lines 224-226, 45-47 and 55-57 of irls_map_solver.cpp, 37-39 and 46-48
    of alglib_irls_objective.cpp: [gradient[p] += delta[p]] for every p. *)
Definition add_into (num_pixels : nat) (delta gradient : list double)
  : outcome (list double) :=
  for_range
    (fun pixel_index gradient =>
       g <- vec_index gradient pixel_index ;;
       d <- vec_index delta pixel_index ;;
       vec_store gradient pixel_index (g + d)%dbl)
    0 num_pixels gradient.

(** Modelled from the spec: the external Minimizer (alglib::mincgoptimize with
    xrep switched on), whose code is not under src/.  Spec section 5: it
    suspends into the objective-and-gradient function on every trial step and
    into the iteration-report function on every accepted step, both
    synchronous, and it terminates by its own policy.  A minimizer is the
    finite decision tree of those requests: a trial step at [x] continues
    with the cost and gradient it is answered, an accepted step reports [x]
    and a cost. *)
Inductive Minimizer : Type :=
| Converged (x : real_1d_array)
| TrialStep (x : real_1d_array) (next : double -> real_1d_array -> Minimizer)
| AcceptedStep (x : real_1d_array) (f : double) (next : Minimizer).

Fixpoint mincgoptimize {Solver : Type} (m : Minimizer)
         (func : real_1d_array -> Session Solver -> outcome (Session Solver))
         (rep : real_1d_array -> double -> Session Solver -> outcome (Session Solver))
         (w : Session Solver) : outcome (real_1d_array * Session Solver) :=
  match m with
  | Converged x => Ok (x, w)
  | TrialStep x next =>
      w' <- func x w ;;
      mincgoptimize (next (residual_sum_ref w') (gradient_ref w')) func rep w'
  | AcceptedStep x f next =>
      w' <- rep x f w ;;
      mincgoptimize next func rep w'
  end.

(** ** src/solvers/irls_map_solver.cpp *)

Section Solver.
Context `{ImageModelApi}.

(** Lines 145-151: the residual loop of the data term.  The loop state is
    [(residual_sum, residuals)]. *)
Definition data_residual_loop (s : IrlsMapSolver) (image_index channel_index : Z)
           (degraded_hr_image : ImageData) (num_pixels : nat)
  : outcome (double * list double) :=
  for_range
    (fun i '(residual_sum, residuals) =>
       observation <- vec_at_int (observations_ s) image_index ;;
       let residual :=
         (GetPixelValue degraded_hr_image 0 (Z.of_nat i) -
          GetPixelValue observation channel_index (Z.of_nat i))%dbl in
       Ok ((residual_sum + residual * residual)%dbl, residuals ++ [residual]))
    0 num_pixels (d0, []).

(** Lines 163-170: the gradient vector of the data term. *)
Definition data_gradient_loop (residual_image : ImageData) (num_pixels : nat)
  : outcome (list double) :=
  for_range
    (fun pixel_index gradient =>
       let partial_derivative :=
         (d2 * GetPixelValue residual_image 0 (Z.of_nat pixel_index))%dbl in
       vec_store gradient pixel_index partial_derivative)
    0 num_pixels (vec_fill d0 (vec_new num_pixels)).

(** Lines 125-173. *)
Definition ComputeDataTermAnalyticalDiff (s : IrlsMapSolver)
           (image_index channel_index : Z) (estimated_image_data : double_ptr)
  : outcome (double * list double) :=
  estimate <- CHECK_NOTNULL estimated_image_data ;;
  let degraded_hr_image := ImageData_of_pixels estimate (image_size_ s) in
  let degraded_hr_image := ImageModel_ApplyToImage degraded_hr_image image_index in
  let degraded_hr_image :=
    ResizeImage degraded_hr_image (image_size_ s) (Some INTER_NEAREST) in
  let num_pixels := GetNumPixels s in
  '(residual_sum, residuals) <-
    data_residual_loop s image_index channel_index degraded_hr_image num_pixels ;;
  let residual_image := ImageData_of_pixels residuals (image_size_ s) in
  let scale := GetDownsamplingScale in
  w <- int_div (width (image_size_ s)) scale ;;
  h <- int_div (height (image_size_ s)) scale ;;
  let residual_image := ResizeImage residual_image (mkSize w h) None in
  let residual_image := ImageModel_ApplyTransposeToImage residual_image image_index in
  gradient <- data_gradient_loop residual_image num_pixels ;;
  Ok (residual_sum, gradient).

(** Lines 193-200: the scaling loop of regularizer number [i].  The source
    indexes [residuals] with [i], the regularizer's index.  The loop state
    is [(residuals, residual_sum)]. *)
Definition regularization_residual_loop (s : IrlsMapSolver) (i : nat)
           (regularization_parameter : double) (num_pixels : nat)
           (residuals : list double) (residual_sum : double)
  : outcome (list double * double) :=
  for_range
    (fun pixel_index '(residuals, residual_sum) =>
       w <- vec_at (irls_weights_ s) pixel_index ;;
       let weight := PrimFloat.sqrt w in
       r <- vec_index residuals i ;;
       let residual := (regularization_parameter * weight * r)%dbl in
       residuals <- vec_store residuals i residual ;;
       Ok (residuals, (residual_sum + residual * residual)%dbl))
    0 num_pixels (residuals, residual_sum).

(** Lines 203-220: the constants handed to [GetDerivatives]. *)
Definition partial_const_terms_loop (s : IrlsMapSolver)
           (regularization_parameter : double) (num_pixels : nat)
           (residuals : list double)
  : outcome (list double) :=
  for_range
    (fun pixel_index partial_const_terms =>
       w <- vec_index (irls_weights_ s) pixel_index ;;
       r <- vec_index residuals pixel_index ;;
       Ok (partial_const_terms ++ [(d2 * regularization_parameter * w * r)%dbl]))
    0 num_pixels [].

(** Lines 187-227: the body of the loop over the regularizers.  The loop
    state is [(residual_sum, gradient)]. *)
Definition regularizer_pass (s : IrlsMapSolver) (estimate : list double)
           (num_pixels : nat) (i : nat) (st : double * list double)
  : outcome (double * list double) :=
  let '(residual_sum, gradient) := st in
  reg <- vec_index (regularizers_ s) i ;;
  let regularization_parameter := snd reg in
  let residuals := ApplyToImage (fst reg) estimate in
  '(residuals, residual_sum) <-
    regularization_residual_loop s i regularization_parameter num_pixels
                                 residuals residual_sum ;;
  partial_const_terms <-
    partial_const_terms_loop s regularization_parameter num_pixels residuals ;;
  let partial_derivatives :=
    GetDerivatives (fst reg) estimate partial_const_terms in
  gradient <- add_into num_pixels partial_derivatives gradient ;;
  Ok (residual_sum, gradient).

(** Lines 175-230. *)
Definition ComputeRegularizationAnalyticalDiff (s : IrlsMapSolver)
           (estimated_image_data : double_ptr)
  : outcome (double * list double) :=
  estimate <- CHECK_NOTNULL estimated_image_data ;;
  let num_pixels := GetNumPixels s in
  let gradient := vec_fill d0 (vec_new num_pixels) in
  let residual_sum := d0 in
  for_range (regularizer_pass s estimate num_pixels)
            0 (length (regularizers_ s)) (residual_sum, gradient).

(** Lines 40-48: the loop over the observed images.  The loop state is
    [(residual_sum, gradient)]. *)
Definition data_terms_loop (irls_map_solver : IrlsMapSolver)
           (estimated_data : real_1d_array) (num_pixels num_images : nat)
           (st : double * real_1d_array) : outcome (double * real_1d_array) :=
  for_range
    (fun image_index '(residual_sum, gradient) =>
       residual_sum_and_gradient <-
         ComputeDataTermAnalyticalDiff irls_map_solver (Z.of_nat image_index) 0
                                       (getcontent estimated_data) ;;
       let residual_sum := (residual_sum + fst residual_sum_and_gradient)%dbl in
       gradient <- add_into num_pixels (snd residual_sum_and_gradient) gradient ;;
       Ok (residual_sum, gradient))
    0 num_images st.

(** Lines 22-60. *)
Definition AlglibObjectiveFunctionAnalyticalDiff (estimated_data : real_1d_array)
           (w : Session IrlsMapSolver) : outcome (Session IrlsMapSolver) :=
  let irls_map_solver := the_solver w in
  let residual_sum := d0 in
  let num_pixels := GetNumPixels irls_map_solver in
  gradient <- zero_gradient num_pixels (gradient_ref w) ;;
  let num_images := GetNumImages irls_map_solver in
  '(residual_sum, gradient) <-
    data_terms_loop irls_map_solver estimated_data num_pixels num_images
                    (residual_sum, gradient) ;;
  residual_sum_and_gradient <-
    ComputeRegularizationAnalyticalDiff irls_map_solver (getcontent estimated_data) ;;
  let residual_sum := (residual_sum + fst residual_sum_and_gradient)%dbl in
  gradient <- add_into num_pixels (snd residual_sum_and_gradient) gradient ;;
  Ok (mkSession irls_map_solver residual_sum gradient (info_log w)).

(** Lines 38-57: what an evaluation computes once the gradient buffer is
    zeroed (the cost starts from 0). *)
Definition objective_from_zeroed (x : real_1d_array) (s : IrlsMapSolver)
           (g0 : real_1d_array) (log : list double)
  : outcome (Session IrlsMapSolver) :=
  let n := GetNumPixels s in
  '(rs1, g1) <- data_terms_loop s x n (GetNumImages s) (d0, g0) ;;
  rg <- ComputeRegularizationAnalyticalDiff s (getcontent x) ;;
  g2 <- add_into n (snd rg) g1 ;;
  Ok (mkSession s (rs1 + fst rg)%dbl g2 log).

(** The two outputs of an evaluation. *)
Definition cost_and_gradient {Solver : Type} (r : outcome (Session Solver))
  : outcome (double * real_1d_array) :=
  w <- r ;; Ok (residual_sum_ref w, gradient_ref w).

(** Lines 64-71: the body only logs. *)
Definition AlglibSolverIterationCallback (estimated_data : real_1d_array)
           (residual_sum : double) (w : Session IrlsMapSolver)
  : outcome (Session IrlsMapSolver) :=
  Ok (mkSession (the_solver w) (residual_sum_ref w) (gradient_ref w)
                (info_log w ++ [residual_sum])).

(** Lines 75-76. *)
Definition initialize_irls_weights (s : IrlsMapSolver) : IrlsMapSolver :=
  set_irls_weights (vec_fill d1 (vec_resize (GetNumPixels s) (irls_weights_ s))) s.

(** [solver_data.setcontent(n, p)]: copies [n] doubles from [p]. *)
Definition setcontent (n : nat) (p : list double) : outcome real_1d_array :=
  if n <=? length p then Ok (firstn n p) else Undefined.

(** The session [mincgoptimize] starts from: the minimizer's own cost and
    gradient buffers, of the problem's dimension. *)
Definition first_session (s : IrlsMapSolver) (log : list double)
  : Session IrlsMapSolver :=
  mkSession s d0 (vec_new (GetNumPixels s)) log.

(** Lines 73-123.  [cg] is the conjugate-gradient policy [mincgcreate] and
    [mincgsetcond] fix (tolerances 1e-10, 0, 0 and at most 50 iterations), as
    a function of the starting point. *)
Definition Solve (cg : real_1d_array -> Minimizer) (s : IrlsMapSolver)
           (log : list double) (initial_estimate : ImageData)
  : outcome (ImageData * Session IrlsMapSolver) :=
  let s := initialize_irls_weights s in
  _first_observation <- vec_index (observations_ s) 0 ;;
  solver_data <- setcontent (GetNumPixels s) (GetMutableDataPointer initial_estimate 0) ;;
  '(solver_data, w) <-
    mincgoptimize (cg solver_data)
                  AlglibObjectiveFunctionAnalyticalDiff
                  AlglibSolverIterationCallback
                  (first_session s log) ;;
  let estimated_image := ImageData_of_pixels solver_data (image_size_ s) in
  Ok (estimated_image, w).

End Solver.

(** ** src/optimization/alglib_irls_objective.cpp

    The [IrlsMapSolver] this file drives is the one of
    optimization/irls_map_solver.h, which is not under src/: the members the
    callbacks call are parameters.  They receive the solver and return it, so
    nothing is assumed about what they leave untouched. *)
Class IrlsObjectiveApi : Type := {
  ObjectiveSolver : Type;
  Objective_GetNumPixels : ObjectiveSolver -> nat;
  Objective_GetNumImages : ObjectiveSolver -> nat;
  ComputeDataTerm :
    ObjectiveSolver -> Z -> double_ptr -> outcome (double * list double * ObjectiveSolver);
  ComputeRegularization :
    ObjectiveSolver -> double_ptr -> outcome (double * list double * ObjectiveSolver);
  UpdateIrlsWeights : ObjectiveSolver -> double_ptr -> outcome ObjectiveSolver
}.

Section Objective.
Context `{IrlsObjectiveApi}.

(** Lines 14-51. *)
Definition AlglibObjectiveFunction (estimated_data : real_1d_array)
           (w : Session ObjectiveSolver) : outcome (Session ObjectiveSolver) :=
  let irls_map_solver := the_solver w in
  let residual_sum := d0 in
  let num_pixels := Objective_GetNumPixels irls_map_solver in
  gradient <- zero_gradient num_pixels (gradient_ref w) ;;
  let num_images := Objective_GetNumImages irls_map_solver in
  '(irls_map_solver, residual_sum, gradient) <-
    for_range
      (fun image_index '(irls_map_solver, residual_sum, gradient) =>
         '(cost, delta, irls_map_solver) <-
           ComputeDataTerm irls_map_solver (Z.of_nat image_index)
                           (getcontent estimated_data) ;;
         let residual_sum := (residual_sum + cost)%dbl in
         gradient <- add_into num_pixels delta gradient ;;
         Ok (irls_map_solver, residual_sum, gradient))
      0 num_images (irls_map_solver, residual_sum, gradient) ;;
  '(cost, delta, irls_map_solver) <-
    ComputeRegularization irls_map_solver (getcontent estimated_data) ;;
  let residual_sum := (residual_sum + cost)%dbl in
  gradient <- add_into num_pixels delta gradient ;;
  Ok (mkSession irls_map_solver residual_sum gradient (info_log w)).

(** Lines 53-62. *)
Definition Objective_AlglibSolverIterationCallback (estimated_data : real_1d_array)
           (residual_sum : double) (w : Session ObjectiveSolver)
  : outcome (Session ObjectiveSolver) :=
  irls_map_solver <- UpdateIrlsWeights (the_solver w) (getcontent estimated_data) ;;
  Ok (mkSession irls_map_solver (residual_sum_ref w) (gradient_ref w)
                (info_log w ++ [residual_sum])).

End Objective.

(** ** The quantities the specification names *)

(** A sum of doubles, accumulated from 0 in index order. *)
Definition sum_doubles (l : list double) : double :=
  fold_left (fun acc x => (acc + x)%dbl) l d0.

Section Specification.
Context `{ImageModelApi}.

(** Spec 4.3, data term, step 1: the estimate degraded for frame
    [image_index] and resampled back to the HR grid. *)
Definition spec_degraded_estimate (s : IrlsMapSolver) (image_index : Z)
           (estimate : list double) : ImageData :=
  ResizeImage
    (ImageModel_ApplyToImage (ImageData_of_pixels estimate (image_size_ s)) image_index)
    (image_size_ s) (Some INTER_NEAREST).

(** Step 2: degraded-estimate pixel minus observation pixel. *)
Definition spec_data_residual (s : IrlsMapSolver) (image_index channel_index : Z)
           (estimate : list double) (observation : ImageData) (p : nat) : double :=
  (GetPixelValue (spec_degraded_estimate s image_index estimate) 0 (Z.of_nat p) -
   GetPixelValue observation channel_index (Z.of_nat p))%dbl.

Definition spec_data_residuals (s : IrlsMapSolver) (image_index channel_index : Z)
           (estimate : list double) (observation : ImageData) : list double :=
  map (spec_data_residual s image_index channel_index estimate observation)
      (seq 0 (GetNumPixels s)).

(** Step 2: the sum of the squared residuals over the HR pixels. *)
Definition spec_data_cost (s : IrlsMapSolver) (image_index channel_index : Z)
           (estimate : list double) (observation : ImageData) : double :=
  sum_doubles
    (map (fun r => (r * r)%dbl)
         (spec_data_residuals s image_index channel_index estimate observation)).

(** Step 3: the residual image resampled to the operator's (LR) domain and
    sent through the operator's transpose. *)
Definition spec_transposed_residual (s : IrlsMapSolver) (image_index : Z)
           (residuals : list double) : ImageData :=
  ImageModel_ApplyTransposeToImage
    (ResizeImage (ImageData_of_pixels residuals (image_size_ s))
                 (mkSize (Z.quot (width (image_size_ s)) GetDownsamplingScale)
                         (Z.quot (height (image_size_ s)) GetDownsamplingScale))
                 None)
    image_index.

(** Step 3: twice the transposed residual, pixel by pixel. *)
Definition spec_data_gradient (s : IrlsMapSolver) (image_index channel_index : Z)
           (estimate : list double) (observation : ImageData) : list double :=
  map (fun p =>
         (d2 * GetPixelValue
                 (spec_transposed_residual s image_index
                    (spec_data_residuals s image_index channel_index estimate observation))
                 0 (Z.of_nat p))%dbl)
      (seq 0 (GetNumPixels s)).

(** Spec 4.3, regularization term, step 2: pixel [p]'s own residual scaled
    by [lambda * sqrt(weight_p)]. *)
Definition spec_scaled_residual (lambda : double) (weights residuals : list double)
           (p : nat) : double :=
  (lambda * PrimFloat.sqrt (nth p weights d0) * nth p residuals d0)%dbl.

(** Step 2: the cost of one regularizer, the sum of the squared scaled
    residuals. *)
Definition spec_regularizer_cost (s : IrlsMapSolver) (estimate : list double)
           (reg : Regularizer * double) : double :=
  sum_doubles
    (map (fun p =>
            let r := spec_scaled_residual (snd reg) (irls_weights_ s)
                                          (ApplyToImage (fst reg) estimate) p in
            (r * r)%dbl)
         (seq 0 (GetNumPixels s))).

(** The same cost in the closed form [lambda^2 * weight_p * residual_p^2]. *)
Definition spec_regularizer_cost_closed (s : IrlsMapSolver) (estimate : list double)
           (reg : Regularizer * double) : double :=
  sum_doubles
    (map (fun p =>
            let r := nth p (ApplyToImage (fst reg) estimate) d0 in
            (snd reg * snd reg * nth p (irls_weights_ s) d0 * (r * r))%dbl)
         (seq 0 (GetNumPixels s))).

(** Step 3: the upstream coefficients of one regularizer,
    [2 * lambda * weight_p * scaled_residual_p]. *)
Definition spec_upstream_coefficients (s : IrlsMapSolver) (estimate : list double)
           (reg : Regularizer * double) : list double :=
  map (fun p =>
         (d2 * snd reg * nth p (irls_weights_ s) d0 *
          spec_scaled_residual (snd reg) (irls_weights_ s)
                               (ApplyToImage (fst reg) estimate) p)%dbl)
      (seq 0 (GetNumPixels s)).

(** Step 4: the gradient contribution of one regularizer. *)
Definition spec_regularizer_gradient (s : IrlsMapSolver) (estimate : list double)
           (reg : Regularizer * double) : list double :=
  GetDerivatives (fst reg) estimate (spec_upstream_coefficients s estimate reg).

End Specification.

(** ** What the regularization loops compute

    Lines 193-200 rescale one entry of the residual vector once per pixel and
    square every intermediate value into the sum: [rescaled] follows that
    entry [r] and the running sum [acc] through the weights of the pixels
    visited. *)
Fixpoint rescaled (lambda : double) (weights : list double) (r acc : double)
  : double * double :=
  match weights with
  | [] => (r, acc)
  | w :: weights =>
      let r' := (lambda * PrimFloat.sqrt w * r)%dbl in
      rescaled lambda weights r' (acc + r' * r')%dbl
  end.

(** ** src/optimization/objective_function.h *)

(** [ObjectiveTerm]: the pure virtual [Compute(estimated_image_data,
    gradient)].  The gradient pointer may be null, in which case no gradient
    is computed; otherwise the term writes into the buffer it is handed. *)
Record ObjectiveTerm : Type := {
  Compute : double_ptr -> option (list double) -> outcome (double * option (list double))
}.

(** [ObjectiveFunction]: its three data members. *)
Record ObjectiveFunction : Type := mkObjectiveFunction {
  num_parameters_ : Z;
  terms_ : list ObjectiveTerm;
  num_iterations_completed_ : Z
}.

(** Lines 32-34: the constructor. *)
Definition ObjectiveFunction_new (num_parameters : Z) : ObjectiveFunction :=
  mkObjectiveFunction num_parameters [] 0.

(** Lines 37-39: [terms_.push_back(objective_term)]. *)
Definition AddTerm (objective_term : ObjectiveTerm) (f : ObjectiveFunction)
  : ObjectiveFunction :=
  mkObjectiveFunction (num_parameters_ f) (terms_ f ++ [objective_term])
                      (num_iterations_completed_ f).

(** Lines 57-59. *)
Definition GetNumCompletedIterations (f : ObjectiveFunction) : Z :=
  num_iterations_completed_ f.

(** ** What the accumulation loops compute *)

(** [gradient[p] += delta[p]] for every [p < n], as a list: the first [n]
    entries are added pairwise, the others are kept. *)
Definition add_gradients (n : nat) (delta gradient : list double) : list double :=
  map (fun gd => (fst gd + snd gd)%dbl) (combine (firstn n gradient) (firstn n delta))
  ++ skipn n gradient.

(** The running cost and gradient after the terms [start, start + count) of
    a family [data] of (cost, gradient) pairs. *)
Definition accumulate_terms (n : nat) (data : nat -> double * list double)
           (start count : nat) (st : double * list double) : double * list double :=
  fold_left (fun st i => ((fst st + fst (data i))%dbl,
                          add_gradients n (snd (data i)) (snd st)))
            (seq start count) st.

(** The residual vector the scaling loop of regularizer 0 leaves, and the sum
    it returns, from the residuals [r :: others]. *)
Definition rescaled_residuals (lambda : double) (weights : list double)
           (r : double) (others : list double) : list double :=
  fst (rescaled lambda weights r d0) :: others.

(** The constants of lines 215-219 for a residual vector. *)
Definition partial_const_terms_of (lambda : double) (weights residuals : list double)
           (n : nat) : list double :=
  map (fun p => (d2 * lambda * nth p weights d0 * nth p residuals d0)%dbl) (seq 0 n).

(** Every configured regularizer answers [estimate] with one residual per
    pixel, and one coefficient per pixel with at least one derivative per
    pixel. *)
Definition regularizers_well_sized `{ImageDataApi} (s : IrlsMapSolver)
           (estimate : list double) : Prop :=
  Forall (fun reg : Regularizer * double =>
            length (ApplyToImage (fst reg) estimate) = GetNumPixels s /\
            forall coefficients,
              length coefficients = GetNumPixels s ->
              GetNumPixels s <= length (GetDerivatives (fst reg) estimate coefficients))
         (regularizers_ s).

(** ** A concrete configuration

    Single-channel images held as their size and flat pixel array, resized
    by nearest-neighbour sampling; an image model without blur at scale 1,
    whose forward and transpose maps are the identity; and the regularizer
    whose residual at a pixel is the pixel's value. *)

Record FlatImage : Type := mkFlat { flat_size : Size; flat_pixels : list double }.

Definition flat_resize (img : FlatImage) (sz : Size) : FlatImage :=
  let sw := Z.to_nat (width (flat_size img)) in
  let sh := Z.to_nat (height (flat_size img)) in
  let dw := Z.to_nat (width sz) in
  let dh := Z.to_nat (height sz) in
  mkFlat sz
    (flat_map
       (fun y => map (fun x => nth ((y * sh / dh) * sw + x * sw / dw)
                                   (flat_pixels img) d0)
                     (seq 0 dw))
       (seq 0 dh)).

#[export] Instance flat_images : ImageDataApi := {
  ImageData := FlatImage;
  ImageData_of_pixels px sz := mkFlat sz px;
  GetPixelValue img _ i := nth (Z.to_nat i) (flat_pixels img) d0;
  ResizeImage img sz _ := flat_resize img sz;
  GetMutableDataPointer img _ := flat_pixels img
}.

#[export] Instance identity_model : ImageModelApi := {
  ImageModel_ApplyToImage img _ := img;
  ImageModel_ApplyTransposeToImage img _ := img;
  GetDownsamplingScale := 1%Z
}.

Definition identity_regularizer : Regularizer :=
  {| ApplyToImage := fun estimate => estimate;
     GetDerivatives := fun _ coefficients => coefficients |}.

(** A 2x1 image, one observation [3; 5], the identity regularizer with
    lambda = 2 and unit weights. *)
Definition sample_solver : IrlsMapSolver :=
  {| image_size_ := mkSize 2 1;
     observations_ := [mkFlat (mkSize 2 1) [3%float; 5%float]];
     regularizers_ := [(identity_regularizer, d2)];
     irls_weights_ := [d1; d1];
     num_pixels_ := 2;
     num_images_ := 1 |}.

Definition sample_estimate : list double := [d1; d1].

Definition sample_solver_without_regularizers : IrlsMapSolver :=
  {| image_size_ := mkSize 2 1;
     observations_ := [mkFlat (mkSize 2 1) [3%float; 5%float]];
     regularizers_ := [];
     irls_weights_ := [d1; d1];
     num_pixels_ := 2;
     num_images_ := 1 |}.

(** A stand-in for the solver of optimization/irls_map_solver.h: the solver
    object is its weight table, both terms cost 1 with a unit gradient, and
    the weight update halves every weight. *)
#[export] Instance sample_objective_api : IrlsObjectiveApi := {
  ObjectiveSolver := list double;
  Objective_GetNumPixels weights := length weights;
  Objective_GetNumImages _ := 1;
  ComputeDataTerm weights _ _ := Ok (d1, repeat d1 (length weights), weights);
  ComputeRegularization weights _ := Ok (d1, repeat d1 (length weights), weights);
  UpdateIrlsWeights weights _ := Ok (map (fun x => (x * 0.5%float)%dbl) weights)
}.

Definition sample_objective_solver : @ObjectiveSolver sample_objective_api :=
  [d1; d1].

(** A conjugate-gradient run of one trial step and one accepted step. *)
Definition sample_minimizer (x : real_1d_array) : Minimizer :=
  TrialStep x (fun f g => AcceptedStep x f (TrialStep x (fun _ _ => Converged x))).

(** A session whose output buffers hold stale values, and the session the
    objective callback leaves at [sample_estimate]. *)
Definition sample_session : Session IrlsMapSolver :=
  mkSession sample_solver 7%float [9%float; 9%float] [].

Definition sample_session_after : Session IrlsMapSolver :=
  mkSession sample_solver 40%float [12%float; (-4)%float] [].

(** Further configurations: an image without pixels, a one-pixel image with
    weight 4, a one-pixel image with two regularizers, a weight table that is
    one entry short, a solver without observations, and an image model whose
    scale is 0. *)
Definition empty_image_solver : IrlsMapSolver :=
  {| image_size_ := mkSize 0 0;
     observations_ := [mkFlat (mkSize 0 0) []];
     regularizers_ := [(identity_regularizer, d2)];
     irls_weights_ := [];
     num_pixels_ := 0;
     num_images_ := 1 |}.

Definition one_pixel_solver : IrlsMapSolver :=
  {| image_size_ := mkSize 1 1;
     observations_ := [mkFlat (mkSize 1 1) [5%float]];
     regularizers_ := [(identity_regularizer, d2)];
     irls_weights_ := [4%float];
     num_pixels_ := 1;
     num_images_ := 1 |}.

Definition two_regularizer_solver : IrlsMapSolver :=
  {| image_size_ := mkSize 1 1;
     observations_ := [mkFlat (mkSize 1 1) [5%float]];
     regularizers_ := [(identity_regularizer, d2); (identity_regularizer, d1)];
     irls_weights_ := [d1];
     num_pixels_ := 1;
     num_images_ := 1 |}.

Definition short_weights_solver : IrlsMapSolver :=
  set_irls_weights [d1] sample_solver.

Definition no_observation_solver : IrlsMapSolver :=
  {| image_size_ := mkSize 2 1;
     observations_ := [];
     regularizers_ := [(identity_regularizer, d2)];
     irls_weights_ := [d1; d1];
     num_pixels_ := 2;
     num_images_ := 0 |}.

Definition zero_scale_model : @ImageModelApi flat_images :=
  {| ImageModel_ApplyToImage := fun img _ => img;
     ImageModel_ApplyTransposeToImage := fun img _ => img;
     GetDownsamplingScale := 0%Z |}.

(** The (cost, gradient) pairs of the two terms on the sample configuration. *)
Definition sample_data_term : double * list double :=
  (20%float, [(-4)%float; (-8)%float]).

Definition sample_regularization_term : double * list double :=
  (20%float, [16%float; 4%float]).

(** * Proofs *)

(** ** The outcome monad and loops *)

Lemma bind_Ok_inv {A B : Type} (m : outcome A) (k : A -> outcome B) (b : B) :
  bind m k = Ok b -> exists a, m = Ok a /\ k a = Ok b.
Proof.
  destruct m as [a | | |]; simpl; intros E; try discriminate.
  exists a; split; [reflexivity | exact E].
Qed.

Ltac bind_inv H :=
  let a := fresh "a" in
  let Ha := fresh "Ha" in
  apply bind_Ok_inv in H; destruct H as [a [Ha H]].

Lemma for_range_pure {St : Type} (body : nat -> St -> outcome St) (f : nat -> St -> St) :
  forall count start st,
    (forall i st, start <= i < start + count -> body i st = Ok (f i st)) ->
    for_range body start count st =
    Ok (fold_left (fun st i => f i st) (seq start count) st).
Proof.
  induction count as [| c IH]; intros start st E; simpl; [reflexivity |].
  rewrite (E start st) by lia. simpl.
  apply IH. intros i st0 Hi. apply E. lia.
Qed.

(** An invariant of the loop state that every iteration keeps is kept by the
    loop. *)
Lemma for_range_invariant {St : Type} (P : St -> Prop) (body : nat -> St -> outcome St) :
  forall count start st st',
    (forall i a b, start <= i < start + count -> P a -> body i a = Ok b -> P b) ->
    P st ->
    for_range body start count st = Ok st' ->
    P st'.
Proof.
  induction count as [| c IH]; intros start st st' Hstep Hst E; simpl in E.
  - injection E as <-. exact Hst.
  - bind_inv E.
    apply (IH (S start) a st'); [| | exact E].
    + intros i x y Hi. apply Hstep. lia.
    + apply (Hstep start st a); [lia | exact Hst | exact Ha].
Qed.

(** A loop aborts on a CHECK only if one of its iterations does. *)
Lemma for_range_no_check {St : Type} (body : nat -> St -> outcome St) :
  (forall i st, body i st <> CheckFailed) ->
  forall count start st, for_range body start count st <> CheckFailed.
Proof.
  intros Hbody. induction count as [| c IH]; intros start st; simpl; [discriminate |].
  specialize (Hbody start st).
  destruct (body start st) as [st' | | |]; simpl;
    [apply IH | congruence | discriminate | discriminate].
Qed.

Lemma bind_no_check {A B : Type} (m : outcome A) (k : A -> outcome B) :
  m <> CheckFailed -> (forall a, k a <> CheckFailed) -> bind m k <> CheckFailed.
Proof.
  intros Hm Hk. destruct m as [a | | |]; simpl;
    [apply Hk | congruence | discriminate | discriminate].
Qed.

(** ** Vectors *)

Lemma vec_at_no_check {A : Type} (v : list A) (i : nat) : vec_at v i <> CheckFailed.
Proof. unfold vec_at. destruct (nth_error v i); discriminate. Qed.

Lemma vec_at_int_no_check {A : Type} (v : list A) (i : Z) :
  vec_at_int v i <> CheckFailed.
Proof.
  unfold vec_at_int. destruct (i <? 0)%Z; [discriminate | apply vec_at_no_check].
Qed.

Lemma vec_index_no_check {A : Type} (v : list A) (i : nat) :
  vec_index v i <> CheckFailed.
Proof. unfold vec_index. destruct (nth_error v i); discriminate. Qed.

Lemma vec_store_no_check {A : Type} (v : list A) (i : nat) (x : A) :
  vec_store v i x <> CheckFailed.
Proof. unfold vec_store. destruct (i <? length v); discriminate. Qed.

Lemma int_div_no_check (a b : Z) : int_div a b <> CheckFailed.
Proof.
  unfold int_div. destruct (b =? 0)%Z; [discriminate |].
  destruct ((a =? - 2 ^ 31) && (b =? -1))%Z; discriminate.
Qed.

Create HintDb no_check.
#[local] Hint Resolve vec_at_no_check vec_at_int_no_check vec_index_no_check
  vec_store_no_check int_div_no_check : no_check.

(** Storing just past a prefix overwrites the element that follows it. *)
Lemma vec_store_middle {A : Type} (pre : list A) (y : A) (rest : list A) (x : A) :
  vec_store (pre ++ y :: rest) (length pre) x = Ok (pre ++ x :: rest).
Proof.
  unfold vec_store.
  assert (L : (length pre <? length (pre ++ y :: rest)) = true).
  { apply Nat.ltb_lt. rewrite length_app. simpl. lia. }
  rewrite L. f_equal.
  rewrite firstn_app, Nat.sub_diag, firstn_all, firstn_O, app_nil_r.
  f_equal. f_equal.
  rewrite skipn_app, skipn_all2 by lia.
  replace (S (length pre) - length pre) with 1 by lia. reflexivity.
Qed.

Lemma vec_store_end {A : Type} (pre : list A) (x : A) :
  vec_store pre (length pre) x = Undefined.
Proof. unfold vec_store. rewrite Nat.ltb_irrefl. reflexivity. Qed.

Lemma vec_store_length {A : Type} (v v' : list A) (i : nat) (x : A) :
  vec_store v i x = Ok v' -> length v' = length v.
Proof.
  unfold vec_store. destruct (i <? length v) eqn:L; [| discriminate].
  apply Nat.ltb_lt in L. intros E. injection E as <-.
  rewrite length_app. cbn [length].
  change (match v with [] => [] | _ :: l => skipn i l end) with (skipn (S i) v).
  rewrite length_firstn, length_skipn. lia.
Qed.

(** A store below [n] leaves everything from [n] on as it was. *)
Lemma vec_store_skipn {A : Type} (v v' : list A) (i n : nat) (x : A) :
  i < n -> vec_store v i x = Ok v' -> skipn n v' = skipn n v.
Proof.
  unfold vec_store. destruct (i <? length v) eqn:L; [| discriminate].
  apply Nat.ltb_lt in L. intros Hi E. injection E as <-.
  change (match v with [] => [] | _ :: l => skipn i l end) with (skipn (S i) v).
  rewrite skipn_app, length_firstn, Nat.min_l by lia.
  rewrite (skipn_all2 (firstn i v)) by (rewrite length_firstn; lia).
  rewrite app_nil_l.
  replace (n - i) with (S (n - i - 1)) by lia. rewrite skipn_cons, skipn_skipn.
  f_equal. lia.
Qed.

(** The loop [for p < count: v[p] = f p], started after a prefix. *)
Lemma store_loop_from {A : Type} (f : nat -> A) :
  forall count pre rest,
    for_range (fun p v => vec_store v p (f p)) (length pre) count (pre ++ rest) =
    if count <=? length rest
    then Ok (pre ++ map f (seq (length pre) count) ++ skipn count rest)
    else Undefined.
Proof.
  induction count as [| c IH]; intros pre rest; simpl.
  - reflexivity.
  - destruct rest as [| y rest].
    + rewrite app_nil_r, vec_store_end. reflexivity.
    + rewrite vec_store_middle. simpl.
      replace (pre ++ f (length pre) :: rest)
        with ((pre ++ [f (length pre)]) ++ rest)
        by (rewrite <- app_assoc; reflexivity).
      replace (S (length pre)) with (length (pre ++ [f (length pre)]))
        by (rewrite length_app; simpl; lia).
      rewrite IH.
      destruct (c <=? length rest); [| reflexivity].
      rewrite <- app_assoc. reflexivity.
Qed.

Lemma store_loop {A : Type} (f : nat -> A) (n : nat) (v : list A) :
  for_range (fun p v => vec_store v p (f p)) 0 n v =
  if n <=? length v then Ok (map f (seq 0 n) ++ skipn n v) else Undefined.
Proof. exact (store_loop_from f n [] v). Qed.

Lemma map_const_seq {A : Type} (x : A) (n start : nat) :
  map (fun _ => x) (seq start n) = repeat x n.
Proof.
  revert start. induction n as [| n IH]; intros start; simpl;
    [reflexivity | rewrite IH; reflexivity].
Qed.

Lemma vec_fill_repeat {A : Type} (x : A) (v : list A) :
  vec_fill x v = repeat x (length v).
Proof.
  unfold vec_fill. induction v as [| y v IH]; simpl;
    [reflexivity | rewrite IH; reflexivity].
Qed.

Lemma vec_resize_length (n : nat) (v : list double) : length (vec_resize n v) = n.
Proof.
  unfold vec_resize. rewrite length_app, length_firstn, repeat_length. lia.
Qed.

Lemma zero_gradient_eq (n : nat) (g : real_1d_array) :
  zero_gradient n g =
  if n <=? length g then Ok (repeat d0 n ++ skipn n g) else Undefined.
Proof.
  unfold zero_gradient. rewrite (store_loop (fun _ => d0)).
  rewrite map_const_seq. reflexivity.
Qed.

(** ** The data term *)

Section DataTerm.
Context `{ImageModelApi}.

(** The accumulating loop of lines 145-151 as a fold: the running sum and
    the residuals pushed so far. *)
Lemma residual_fold (r : nat -> double) :
  forall count start acc out,
    fold_left (fun (st : double * list double) i =>
                 ((fst st + r i * r i)%dbl, snd st ++ [r i]))
              (seq start count) (acc, out) =
    (fold_left (fun a x => (a + x)%dbl)
               (map (fun x => (x * x)%dbl) (map r (seq start count))) acc,
     out ++ map r (seq start count)).
Proof.
  induction count as [| c IH]; intros start acc out; simpl.
  - rewrite app_nil_r. reflexivity.
  - rewrite IH. rewrite <- app_assoc. reflexivity.
Qed.

Lemma data_residual_loop_eq (s : IrlsMapSolver) (image_index channel_index : Z)
      (degraded : ImageData) (observation : ImageData) (n : nat) :
  vec_at_int (observations_ s) image_index = Ok observation ->
  let r := fun i => (GetPixelValue degraded 0 (Z.of_nat i) -
                     GetPixelValue observation channel_index (Z.of_nat i))%dbl in
  data_residual_loop s image_index channel_index degraded n =
  Ok (sum_doubles (map (fun x => (x * x)%dbl) (map r (seq 0 n))), map r (seq 0 n)).
Proof.
  intros Hobs r. unfold data_residual_loop.
  rewrite (for_range_pure _
             (fun i (st : double * list double) =>
                ((fst st + r i * r i)%dbl, snd st ++ [r i]))).
  - rewrite residual_fold. reflexivity.
  - intros i [acc out] _. rewrite Hobs. reflexivity.
Qed.

Lemma data_gradient_loop_eq (residual_image : ImageData) (n : nat) :
  data_gradient_loop residual_image n =
  Ok (map (fun p => (d2 * GetPixelValue residual_image 0 (Z.of_nat p))%dbl) (seq 0 n)).
Proof.
  unfold data_gradient_loop.
  rewrite (store_loop
             (fun p => (d2 * GetPixelValue residual_image 0 (Z.of_nat p))%dbl)).
  rewrite vec_fill_repeat. unfold vec_new.
  rewrite !repeat_length, Nat.leb_refl.
  rewrite skipn_all2 by (rewrite repeat_length; lia).
  rewrite app_nil_r. reflexivity.
Qed.

Lemma int_div_positive (a b : Z) : (0 < b)%Z -> int_div a b = Ok (Z.quot a b).
Proof.
  intros Hb. unfold int_div.
  destruct (Z.eqb_spec b 0); [lia |].
  destruct (Z.eqb_spec b (-1)); [lia |].
  rewrite andb_false_r. reflexivity.
Qed.

(** C3. For a non-null estimate and an observed frame [image_index] (with
    the positive downsampling scale the data model requires),
    ComputeDataTermAnalyticalDiff returns as cost the sum over the HR pixels
    of the squared residual between the degraded, re-upsampled estimate and
    the observation, and as gradient twice the operator's transpose applied
    to the residual image resampled to the LR domain. *)
Theorem ComputeDataTermAnalyticalDiff_spec
        (s : IrlsMapSolver) (image_index channel_index : Z)
        (estimate : list double) (observation : ImageData) :
  vec_at_int (observations_ s) image_index = Ok observation ->
  (0 < GetDownsamplingScale)%Z ->
  ComputeDataTermAnalyticalDiff s image_index channel_index (Some estimate) =
  Ok (spec_data_cost s image_index channel_index estimate observation,
      spec_data_gradient s image_index channel_index estimate observation).
Proof.
  intros Hobs Hscale. unfold ComputeDataTermAnalyticalDiff. simpl.
  rewrite (data_residual_loop_eq s image_index channel_index _ (GetNumPixels s) Hobs).
  simpl. rewrite !int_div_positive by exact Hscale. simpl.
  rewrite data_gradient_loop_eq. reflexivity.
Qed.

End DataTerm.

(** ** Null estimates and the empty regularizer list *)

Section Checks.
Context `{ImageModelApi}.

Lemma regularizer_pass_no_check (s : IrlsMapSolver) (estimate : list double)
      (n i : nat) (st : double * list double) :
  regularizer_pass s estimate n i st <> CheckFailed.
Proof.
  unfold regularizer_pass. destruct st as [residual_sum gradient].
  apply bind_no_check; [auto with no_check |]. intros reg.
  apply bind_no_check.
  { apply for_range_no_check. intros p [rs acc].
    repeat (apply bind_no_check; [solve [auto with no_check] | intro]). discriminate. }
  intros [residuals rs].
  apply bind_no_check.
  { apply for_range_no_check. intros p terms.
    repeat (apply bind_no_check; [solve [auto with no_check] | intro]). discriminate. }
  intros terms.
  apply bind_no_check; [| discriminate].
  apply for_range_no_check. intros p g.
  repeat (apply bind_no_check; [solve [auto with no_check] | intro]).
  auto with no_check.
Qed.

(** C7. With a null estimate both computations stop at CHECK_NOTNULL, before
    any cost or gradient exists; with a non-null estimate neither of them
    stops at a CHECK. *)
Theorem null_estimate_is_fatal (s : IrlsMapSolver) :
  (forall image_index channel_index,
      ComputeDataTermAnalyticalDiff s image_index channel_index None = CheckFailed) /\
  ComputeRegularizationAnalyticalDiff s None = CheckFailed /\
  (forall image_index channel_index estimate,
      CHECK_NOTNULL (Some estimate) = Ok estimate /\
      ComputeDataTermAnalyticalDiff s image_index channel_index (Some estimate)
      <> CheckFailed) /\
  (forall estimate,
      ComputeRegularizationAnalyticalDiff s (Some estimate) <> CheckFailed).
Proof.
  split; [reflexivity |]. split; [reflexivity |]. split.
  - intros image_index channel_index estimate. split; [reflexivity |].
    unfold ComputeDataTermAnalyticalDiff. simpl.
    apply bind_no_check.
    { apply for_range_no_check. intros p [rs acc].
      apply bind_no_check; [auto with no_check | discriminate]. }
    intros [rs residuals].
    repeat (apply bind_no_check; [solve [auto with no_check] | intro]).
    apply bind_no_check; [| discriminate].
    apply for_range_no_check. auto with no_check.
  - intros estimate. unfold ComputeRegularizationAnalyticalDiff. simpl.
    apply for_range_no_check. intros i st. apply regularizer_pass_no_check.
Qed.

(** C10. With no regularizer configured and a non-null estimate,
    ComputeRegularizationAnalyticalDiff returns the cost 0 and a gradient of
    [num_pixels] entries, all 0. *)
Theorem no_regularizer_gives_zero (s : IrlsMapSolver) (estimate : list double) :
  regularizers_ s = [] ->
  ComputeRegularizationAnalyticalDiff s (Some estimate) =
  Ok (d0, repeat d0 (GetNumPixels s)) /\
  length (repeat d0 (GetNumPixels s)) = GetNumPixels s.
Proof.
  intros Hnone. unfold ComputeRegularizationAnalyticalDiff. simpl.
  rewrite Hnone. simpl.
  rewrite vec_fill_repeat. unfold vec_new. rewrite !repeat_length.
  split; reflexivity.
Qed.

End Checks.

(** ** The objective callback of the solver *)

Section ObjectiveCallback.
Context `{ImageModelApi}.

(** [gradient[p] += delta[p]] for [p < n] keeps the buffer's length and
    everything from index [n] on. *)
Lemma add_into_frame (n : nat) (delta g g' : list double) :
  add_into n delta g = Ok g' ->
  length g' = length g /\ skipn n g' = skipn n g.
Proof.
  unfold add_into.
  apply (for_range_invariant
           (fun v => length v = length g /\ skipn n v = skipn n g)).
  - intros i a b Hi [Hlen Hskip] E.
    bind_inv E. bind_inv E. split.
    + rewrite (@vec_store_length _ _ _ _ _ E). exact Hlen.
    + assert (Hin : i < n) by lia.
      rewrite (@vec_store_skipn _ _ _ i n _ Hin E). exact Hskip.
  - split; reflexivity.
Qed.

Lemma data_terms_loop_frame (s : IrlsMapSolver) (x : real_1d_array)
      (n num_images : nat) (rs rs' : double) (g g' : real_1d_array) :
  data_terms_loop s x n num_images (rs, g) = Ok (rs', g') ->
  length g' = length g /\ skipn n g' = skipn n g.
Proof.
  unfold data_terms_loop.
  apply (for_range_invariant
           (fun st : double * real_1d_array =>
              length (snd st) = length g /\ skipn n (snd st) = skipn n g)).
  - intros i [ra ga] [rb gb] _ [Hlen Hskip] E. simpl in *.
    bind_inv E. bind_inv E. injection E as _ <-.
    destruct (add_into_frame _ _ _ Ha0) as [L K].
    split; congruence.
  - split; reflexivity.
Qed.

(** The steps of a successful evaluation. *)
Lemma objective_inv (x : real_1d_array) (w w' : Session IrlsMapSolver) :
  AlglibObjectiveFunctionAnalyticalDiff x w = Ok w' ->
  let s := the_solver w in
  let n := GetNumPixels s in
  exists g0 rs1 g1 rg g2,
    zero_gradient n (gradient_ref w) = Ok g0 /\
    data_terms_loop s x n (GetNumImages s) (d0, g0) = Ok (rs1, g1) /\
    ComputeRegularizationAnalyticalDiff s (getcontent x) = Ok rg /\
    add_into n (snd rg) g1 = Ok g2 /\
    w' = mkSession s (rs1 + fst rg)%dbl g2 (info_log w).
Proof.
  intros E s n. unfold AlglibObjectiveFunctionAnalyticalDiff in E.
  bind_inv E. bind_inv E. destruct a0 as [rs1 g1]. bind_inv E. bind_inv E.
  injection E as <-.
  exists a, rs1, g1, a0, a1. repeat split; assumption.
Qed.

Lemma objective_zeroes_first (x : real_1d_array) (w : Session IrlsMapSolver) :
  AlglibObjectiveFunctionAnalyticalDiff x w =
  (g0 <- zero_gradient (GetNumPixels (the_solver w)) (gradient_ref w) ;;
   objective_from_zeroed x (the_solver w) g0 (info_log w)).
Proof. reflexivity. Qed.

(** A successful evaluation hands back the solver object and the log it
    received; only the two output references change. *)
Lemma objective_keeps_solver (x : real_1d_array) (w w' : Session IrlsMapSolver) :
  AlglibObjectiveFunctionAnalyticalDiff x w = Ok w' ->
  the_solver w' = the_solver w /\ info_log w' = info_log w.
Proof.
  intros E.
  destruct (objective_inv _ _ E) as (g0 & rs1 & g1 & rg & g2 & _ & _ & _ & _ & ->).
  split; reflexivity.
Qed.

(** C6. A successful evaluation of the objective and gradient (the data
    terms and the regularization term) leaves the IRLS weight table as it
    was: the solver object comes back unchanged, so the table is read and
    never written (and nothing is logged either). *)
Theorem objective_keeps_weight_table (x : real_1d_array)
        (w w' : Session IrlsMapSolver) :
  AlglibObjectiveFunctionAnalyticalDiff x w = Ok w' ->
  irls_weights_ (the_solver w') = irls_weights_ (the_solver w) /\
  the_solver w' = the_solver w /\
  info_log w' = info_log w.
Proof.
  intros E. destruct (objective_keeps_solver _ _ E) as [Hs Hl].
  rewrite Hs. repeat split. exact Hl.
Qed.

(** Calling the objective again on the session a first call left gives that
    same session. *)
Lemma objective_twice (x : real_1d_array) (w w' : Session IrlsMapSolver) :
  AlglibObjectiveFunctionAnalyticalDiff x w = Ok w' ->
  AlglibObjectiveFunctionAnalyticalDiff x w' = Ok w'.
Proof.
  intros E.
  destruct (objective_inv _ _ E) as (g0 & rs1 & g1 & rg & g2 & Hz & Hd & Hr & Ha & ->).
  rewrite objective_zeroes_first. simpl.
  destruct (data_terms_loop_frame _ _ _ _ _ _ Hd) as [L1 K1].
  destruct (add_into_frame _ _ _ Ha) as [L2 K2].
  rewrite zero_gradient_eq in Hz |- *.
  destruct (GetNumPixels (the_solver w) <=? length (gradient_ref w)) eqn:Hn;
    [| discriminate].
  injection Hz as Hz.
  assert (Hlen : length g0 = length (gradient_ref w)).
  { rewrite <- Hz, length_app, repeat_length, length_skipn.
    apply Nat.leb_le in Hn. lia. }
  assert (Hskip : skipn (GetNumPixels (the_solver w)) g0 =
                  skipn (GetNumPixels (the_solver w)) (gradient_ref w)).
  { rewrite <- Hz at 1. rewrite skipn_app, repeat_length, Nat.sub_diag.
    rewrite skipn_all2 by (rewrite repeat_length; lia). reflexivity. }
  replace (length g2) with (length (gradient_ref w)) by congruence.
  rewrite Hn.
  replace (skipn (GetNumPixels (the_solver w)) g2)
    with (skipn (GetNumPixels (the_solver w)) (gradient_ref w)) by congruence.
  rewrite Hz. simpl. unfold objective_from_zeroed.
  rewrite Hd. simpl. rewrite Hr. simpl. rewrite Ha. reflexivity.
Qed.

Lemma zero_gradient_exact (n : nat) (g : real_1d_array) :
  length g = n -> zero_gradient n g = Ok (repeat d0 n).
Proof.
  intros L. rewrite zero_gradient_eq, L, Nat.leb_refl.
  rewrite skipn_all2 by lia. rewrite app_nil_r. reflexivity.
Qed.

(** The log is passed through: it has no part in the cost or the gradient. *)
Lemma objective_from_zeroed_log (x : real_1d_array) (s : IrlsMapSolver)
      (g0 : real_1d_array) (log log' : list double) :
  cost_and_gradient (objective_from_zeroed x s g0 log) =
  cost_and_gradient (objective_from_zeroed x s g0 log').
Proof.
  unfold objective_from_zeroed, cost_and_gradient.
  destruct (data_terms_loop s x (GetNumPixels s) (GetNumImages s) (d0, g0))
    as [[rs1 g1] | | |]; simpl; try reflexivity.
  destruct (ComputeRegularizationAnalyticalDiff s (getcontent x))
    as [rg | | |]; simpl; try reflexivity.
  destruct (add_into (GetNumPixels s) (snd rg) g1); reflexivity.
Qed.

(** C8. Two evaluations at the same estimate on the same solver state (the
    weight table included) return the same cost and the same gradient,
    whatever the output buffers held and whatever was logged in between; in
    particular a second call on the session the first one left changes
    nothing. *)
Theorem objective_is_deterministic (x : real_1d_array)
        (w1 w2 : Session IrlsMapSolver) :
  the_solver w1 = the_solver w2 ->
  length (gradient_ref w1) = GetNumPixels (the_solver w1) ->
  length (gradient_ref w2) = GetNumPixels (the_solver w2) ->
  cost_and_gradient (AlglibObjectiveFunctionAnalyticalDiff x w1) =
  cost_and_gradient (AlglibObjectiveFunctionAnalyticalDiff x w2) /\
  (w' <- AlglibObjectiveFunctionAnalyticalDiff x w1 ;;
   AlglibObjectiveFunctionAnalyticalDiff x w') =
  AlglibObjectiveFunctionAnalyticalDiff x w1.
Proof.
  intros Hs L1 L2. split.
  - rewrite !objective_zeroes_first.
    rewrite (@zero_gradient_exact _ _ L1), (@zero_gradient_exact _ _ L2). simpl.
    rewrite Hs. apply objective_from_zeroed_log.
  - destruct (AlglibObjectiveFunctionAnalyticalDiff x w1) as [w' | | |] eqn:E;
      simpl; try reflexivity.
    apply objective_twice with (w := w1). exact E.
Qed.

End ObjectiveCallback.

(** ** Output buffers *)

Section OutputBuffers.
Context `{ImageModelApi} `{IrlsObjectiveApi}.

Lemma AlglibObjectiveFunction_zeroes_first (x : real_1d_array)
      (s : ObjectiveSolver) (f : double) (g : real_1d_array) (log : list double) :
  length g = Objective_GetNumPixels s ->
  AlglibObjectiveFunction x (mkSession s f g log) =
  AlglibObjectiveFunction x
    (mkSession s d0 (repeat d0 (Objective_GetNumPixels s)) log).
Proof.
  intros L. unfold AlglibObjectiveFunction. simpl.
  rewrite (@zero_gradient_exact _ _ L).
  rewrite (@zero_gradient_exact _ _ (repeat_length d0 _)). reflexivity.
Qed.

Lemma AnalyticalDiff_zeroes_first (x : real_1d_array)
      (s : IrlsMapSolver) (f : double) (g : real_1d_array) (log : list double) :
  length g = GetNumPixels s ->
  AlglibObjectiveFunctionAnalyticalDiff x (mkSession s f g log) =
  AlglibObjectiveFunctionAnalyticalDiff x
    (mkSession s d0 (repeat d0 (GetNumPixels s)) log).
Proof.
  intros L. rewrite !objective_zeroes_first. simpl.
  rewrite (@zero_gradient_exact _ _ L).
  rewrite (@zero_gradient_exact _ _ (repeat_length d0 _)). reflexivity.
Qed.

End OutputBuffers.

(** ** Solve and the iteration report *)

Section SolveRun.
Context `{ImageModelApi}.

Lemma initialize_irls_weights_eq (s : IrlsMapSolver) :
  irls_weights_ (initialize_irls_weights s) = repeat d1 (GetNumPixels s).
Proof.
  unfold initialize_irls_weights. simpl.
  rewrite vec_fill_repeat, vec_resize_length. reflexivity.
Qed.

(** C5. Whatever the initial estimate and the weights left from an earlier
    solve, the session Solve hands to the minimizer holds a weight table of
    [num_pixels] entries, each 1.0; nothing of the minimizer (hence no
    iteration report) runs before that. *)
Theorem Solve_initializes_weights (cg : real_1d_array -> Minimizer)
        (s : IrlsMapSolver) (log : list double) (initial_estimate : ImageData) :
  let s1 := initialize_irls_weights s in
  irls_weights_ s1 = repeat d1 (GetNumPixels s) /\
  length (irls_weights_ s1) = GetNumPixels s /\
  Forall (fun weight => weight = d1) (irls_weights_ s1) /\
  the_solver (first_session s1 log) = s1 /\
  Solve cg s log initial_estimate =
  (_first_observation <- vec_index (observations_ s1) 0 ;;
   solver_data <-
     setcontent (GetNumPixels s1) (GetMutableDataPointer initial_estimate 0) ;;
   '(solver_data, w) <-
     mincgoptimize (cg solver_data)
                   AlglibObjectiveFunctionAnalyticalDiff
                   AlglibSolverIterationCallback
                   (first_session s1 log) ;;
   Ok (ImageData_of_pixels solver_data (image_size_ s1), w)).
Proof.
  intros s1. subst s1. rewrite initialize_irls_weights_eq.
  split; [reflexivity |]. split; [apply repeat_length |].
  split; [| split; reflexivity].
  apply Forall_forall. intros weight Hin. exact (repeat_spec _ _ _ Hin).
Qed.

(** C4. The specification has the iteration report Solve registers refresh
    the weight table through UpdateIrlsWeights after every accepted step.  The
    callback of irls_map_solver.cpp does not: for every reported estimate and
    cost it returns the solver object it was given, weight table included,
    and only appends the reported cost to the log. *)
Theorem iteration_report_only_logs (x : real_1d_array) (f : double)
        (w : Session IrlsMapSolver) :
  exists w',
    AlglibSolverIterationCallback x f w = Ok w' /\
    the_solver w' = the_solver w /\
    irls_weights_ (the_solver w') = irls_weights_ (the_solver w) /\
    info_log w' = info_log w ++ [f].
Proof.
  eexists. split; [reflexivity |]. simpl. repeat split.
Qed.

(** Neither callback of this file writes the solver object, so a whole run
    of the minimizer returns it as it was. *)
Lemma mincgoptimize_keeps_solver (m : Minimizer) :
  forall (w w' : Session IrlsMapSolver) (x : real_1d_array),
    mincgoptimize m AlglibObjectiveFunctionAnalyticalDiff
                  AlglibSolverIterationCallback w = Ok (x, w') ->
    the_solver w' = the_solver w.
Proof.
  induction m as [x0 | x0 next IH | x0 f next IH]; intros w w' x E; simpl in E.
  - injection E as _ <-. reflexivity.
  - bind_inv E. rewrite (IH _ _ _ _ _ E).
    apply (objective_keeps_solver _ _ Ha).
  - apply IH in E. rewrite E. reflexivity.
Qed.

(** Hence the weights are still all 1.0 when Solve returns, however many
    steps the minimizer accepted. *)
Lemma Solve_never_refreshes_weights (cg : real_1d_array -> Minimizer)
      (s : IrlsMapSolver) (log : list double) (initial_estimate : ImageData)
      (estimated_image : ImageData) (w : Session IrlsMapSolver) :
  Solve cg s log initial_estimate = Ok (estimated_image, w) ->
  irls_weights_ (the_solver w) = repeat d1 (GetNumPixels s).
Proof.
  unfold Solve. intros E. bind_inv E. bind_inv E. bind_inv E.
  destruct a1 as [solver_data w1]. injection E as _ <-.
  rewrite (mincgoptimize_keeps_solver _ _ Ha1). simpl.
  apply initialize_irls_weights_eq.
Qed.

End SolveRun.

(** The iteration report of alglib_irls_objective.cpp does hand the reported
    estimate to UpdateIrlsWeights. *)
Lemma Objective_iteration_report_updates `{IrlsObjectiveApi}
      (x : real_1d_array) (f : double) (w : Session ObjectiveSolver) :
  Objective_AlglibSolverIterationCallback x f w =
  (irls_map_solver <- UpdateIrlsWeights (the_solver w) (Some x) ;;
   Ok (mkSession irls_map_solver (residual_sum_ref w) (gradient_ref w)
                 (info_log w ++ [f]))).
Proof. reflexivity. Qed.

(** ** The regularization loops in general *)

Section RegularizationLoops.
Context `{ImageModelApi}.

Lemma vec_index_middle {A : Type} (pre : list A) (y : A) (rest : list A) :
  vec_index (pre ++ y :: rest) (length pre) = Ok y.
Proof.
  unfold vec_index. rewrite nth_error_app2, Nat.sub_diag by lia. reflexivity.
Qed.

Lemma vec_at_nth (v : list double) (i : nat) :
  i < length v -> vec_at v i = Ok (nth i v d0).
Proof.
  intros L. unfold vec_at. rewrite (nth_error_nth' v d0 L). reflexivity.
Qed.

Lemma vec_index_nth (v : list double) (i : nat) :
  i < length v -> vec_index v i = Ok (nth i v d0).
Proof.
  intros L. unfold vec_index. rewrite (nth_error_nth' v d0 L). reflexivity.
Qed.

Lemma skipn_nth_cons (v : list double) (i : nat) :
  i < length v -> skipn i v = nth i v d0 :: skipn (S i) v.
Proof.
  revert i. induction v as [| y v IH]; intros i L; simpl in L; [lia |].
  destruct i as [| i]; [reflexivity |].
  rewrite !skipn_cons. cbn [nth]. apply IH. lia.
Qed.

(** The scaling loop of regularizer [i], for any weights and residuals: the
    entry at index [i] is the only one read and the only one written. *)
Lemma regularization_residual_loop_from (s : IrlsMapSolver) (lambda : double)
      (before after : list double) :
  forall count start r acc,
    start + count <= length (irls_weights_ s) ->
    for_range
      (fun pixel_index '(residuals, residual_sum) =>
         w <- vec_at (irls_weights_ s) pixel_index ;;
         let weight := PrimFloat.sqrt w in
         r <- vec_index residuals (length before) ;;
         let residual := (lambda * weight * r)%dbl in
         residuals <- vec_store residuals (length before) residual ;;
         Ok (residuals, (residual_sum + residual * residual)%dbl))
      start count (before ++ r :: after, acc) =
    Ok (before ++ fst (rescaled lambda (firstn count (skipn start (irls_weights_ s))) r acc)
               :: after,
        snd (rescaled lambda (firstn count (skipn start (irls_weights_ s))) r acc)).
Proof.
  induction count as [| c IH]; intros start r acc L; simpl.
  - reflexivity.
  - rewrite vec_at_nth by lia. simpl.
    rewrite vec_index_middle. simpl.
    rewrite vec_store_middle. simpl.
    rewrite IH by lia.
    rewrite (skipn_nth_cons (irls_weights_ s) (i := start)) by lia.
    reflexivity.
Qed.

Lemma regularization_residual_loop_eq (s : IrlsMapSolver) (lambda : double)
      (n : nat) (before after : list double) (r acc : double) :
  n <= length (irls_weights_ s) ->
  regularization_residual_loop s (length before) lambda n (before ++ r :: after) acc =
  Ok (before ++ fst (rescaled lambda (firstn n (irls_weights_ s)) r acc) :: after,
      snd (rescaled lambda (firstn n (irls_weights_ s)) r acc)).
Proof.
  intros L. unfold regularization_residual_loop.
  rewrite regularization_residual_loop_from by lia. reflexivity.
Qed.

Lemma push_back_fold (c : nat -> double) :
  forall count start (out : list double),
    fold_left (fun out p => out ++ [c p]) (seq start count) out =
    out ++ map c (seq start count).
Proof.
  induction count as [| k IH]; intros start out; simpl.
  - rewrite app_nil_r. reflexivity.
  - rewrite IH, <- app_assoc. reflexivity.
Qed.

(** The constants handed to GetDerivatives, for any weights and residuals:
    pixel [p] gets [2 * lambda * weight_p * residuals[p]], with [residuals]
    as the scaling loop left it. *)
Lemma partial_const_terms_loop_eq (s : IrlsMapSolver) (lambda : double)
      (n : nat) (residuals : list double) :
  n <= length (irls_weights_ s) ->
  n <= length residuals ->
  partial_const_terms_loop s lambda n residuals =
  Ok (map (fun p => (d2 * lambda * nth p (irls_weights_ s) d0 * nth p residuals d0)%dbl)
          (seq 0 n)).
Proof.
  intros Lw Lr. unfold partial_const_terms_loop.
  rewrite (for_range_pure _
             (fun p out =>
                out ++ [(d2 * lambda * nth p (irls_weights_ s) d0 *
                         nth p residuals d0)%dbl])).
  - rewrite (push_back_fold
               (fun p => (d2 * lambda * nth p (irls_weights_ s) d0 *
                          nth p residuals d0)%dbl)).
    reflexivity.
  - intros p out Hp. rewrite !vec_index_nth by lia. reflexivity.
Qed.

End RegularizationLoops.

(** ** The regularization term on the sample configuration

    One regularizer (index 0) with lambda = 2, unit weights, and the residuals
    [1; 1] of the estimate [1; 1]. *)

(** C1. On the sample configuration the specified cost is
    [2^2 * 1 * 1^2 + 2^2 * 1 * 1^2 = 8].  The scaling loop reads and rewrites
    [residuals[0]] at both pixels (it indexes with the regularizer's index),
    so it squares 2 and then 4 and the returned cost is 20. *)
Theorem regularization_cost_on_sample :
  regularization_residual_loop sample_solver 0 d2 2 [d1; d1] d0 =
  Ok ([4%float; d1], 20%float) /\
  cost_of (ComputeRegularizationAnalyticalDiff sample_solver (Some sample_estimate)) =
  Ok 20%float /\
  spec_regularizer_cost sample_solver sample_estimate (identity_regularizer, d2) =
  8%float /\
  spec_regularizer_cost_closed sample_solver sample_estimate (identity_regularizer, d2) =
  8%float /\
  same_double 20%float 8%float = false.
Proof. repeat split; vm_compute; reflexivity. Qed.

(** C2. On the sample configuration the specified upstream coefficients are
    [2 * 2 * 1 * 2 = 8] at both pixels.  The residual vector left by the
    scaling loop is [4; 1] (pixel 0 scaled twice, pixel 1 not at all), so the
    coefficients handed to GetDerivatives are [16; 4], and so is the returned
    gradient. *)
Theorem regularization_gradient_on_sample :
  partial_const_terms_loop sample_solver d2 2 [4%float; d1] =
  Ok [16%float; 4%float] /\
  gradient_of (ComputeRegularizationAnalyticalDiff sample_solver (Some sample_estimate)) =
  Ok [16%float; 4%float] /\
  spec_upstream_coefficients sample_solver sample_estimate (identity_regularizer, d2) =
  [8%float; 8%float] /\
  spec_regularizer_gradient sample_solver sample_estimate (identity_regularizer, d2) =
  [8%float; 8%float] /\
  same_double 16%float 8%float = false /\
  same_double 4%float 8%float = false.
Proof. repeat split; vm_compute; reflexivity. Qed.

(** ** Instances on the sample configuration *)

Lemma ComputeDataTermAnalyticalDiff_spec_witness :
  ComputeDataTermAnalyticalDiff sample_solver 0 0 (Some sample_estimate) =
  Ok (spec_data_cost sample_solver 0 0 sample_estimate
                     (mkFlat (mkSize 2 1) [3%float; 5%float]),
      spec_data_gradient sample_solver 0 0 sample_estimate
                         (mkFlat (mkSize 2 1) [3%float; 5%float])).
Proof.
  apply (ComputeDataTermAnalyticalDiff_spec sample_solver 0 0 sample_estimate).
  - reflexivity.
  - reflexivity.
Defined.

Example data_term_on_sample :
  ComputeDataTermAnalyticalDiff sample_solver 0 0 (Some sample_estimate) =
  Ok (20%float, [(-4)%float; (-8)%float]).
Proof. vm_compute. reflexivity. Qed.

Lemma objective_keeps_weight_table_witness :
  irls_weights_ (the_solver sample_session_after) =
  irls_weights_ (the_solver sample_session) /\
  the_solver sample_session_after = the_solver sample_session /\
  info_log sample_session_after = info_log sample_session.
Proof.
  apply (objective_keeps_weight_table sample_estimate sample_session).
  vm_compute. reflexivity.
Defined.

Lemma objective_is_deterministic_witness :
  cost_and_gradient (AlglibObjectiveFunctionAnalyticalDiff sample_estimate sample_session) =
  cost_and_gradient
    (AlglibObjectiveFunctionAnalyticalDiff sample_estimate sample_session_after) /\
  (w' <- AlglibObjectiveFunctionAnalyticalDiff sample_estimate sample_session ;;
   AlglibObjectiveFunctionAnalyticalDiff sample_estimate w') =
  AlglibObjectiveFunctionAnalyticalDiff sample_estimate sample_session.
Proof.
  apply (objective_is_deterministic sample_estimate sample_session sample_session_after);
    reflexivity.
Defined.

Lemma no_regularizer_gives_zero_witness :
  ComputeRegularizationAnalyticalDiff sample_solver_without_regularizers
                                      (Some sample_estimate) =
  Ok (d0, [d0; d0]) /\
  length [d0; d0] = 2.
Proof.
  apply (no_regularizer_gives_zero sample_solver_without_regularizers sample_estimate).
  reflexivity.
Defined.

(** A whole solve on the sample configuration: the minimizer accepts a step,
    the report is logged, and the weights are what they were initialised to. *)
Example Solve_on_sample :
  Solve sample_minimizer sample_solver [] (mkFlat (mkSize 2 1) sample_estimate) =
  Ok (mkFlat (mkSize 2 1) sample_estimate,
      mkSession sample_solver 40%float [12%float; (-4)%float] [40%float]).
Proof. vm_compute. reflexivity. Qed.

(** On the stand-in for the other solver, the iteration report of
    alglib_irls_objective.cpp does change the weights. *)
Example Objective_iteration_report_on_sample :
  Objective_AlglibSolverIterationCallback sample_estimate 40%float
    (mkSession sample_objective_solver d0 [d0; d0] []) =
  Ok (mkSession ([0.5%float; 0.5%float] : @ObjectiveSolver sample_objective_api)
                d0 [d0; d0] [40%float]).
Proof. vm_compute. reflexivity. Qed.

(** * Further properties of the code *)

Unset Implicit Arguments.

(** ** The accumulation loop [gradient[p] += delta[p]] *)

Lemma add_into_from (delta_before delta_rest : list double) :
  forall count before rest,
    length delta_before = length before ->
    count <= length rest ->
    count <= length delta_rest ->
    for_range
      (fun pixel_index gradient =>
         g <- vec_index gradient pixel_index ;;
         d <- vec_index (delta_before ++ delta_rest) pixel_index ;;
         vec_store gradient pixel_index (g + d)%dbl)
      (length before) count (before ++ rest) =
    Ok (before ++
        map (fun gd => (fst gd + snd gd)%dbl)
            (combine (firstn count rest) (firstn count delta_rest))
        ++ skipn count rest).
Proof.
  intros count. revert delta_before delta_rest.
  induction count as [| c IH]; intros dpre drest before rest Lpre Lr Ld; simpl.
  - reflexivity.
  - destruct rest as [| y rest]; [simpl in Lr; lia |].
    destruct drest as [| e drest]; [simpl in Ld; lia |].
    simpl in Lr, Ld.
    rewrite vec_index_middle. simpl.
    rewrite <- Lpre, vec_index_middle. simpl.
    rewrite Lpre, vec_store_middle. simpl.
    replace (before ++ (y + e)%dbl :: rest)
      with ((before ++ [(y + e)%dbl]) ++ rest)
      by (rewrite <- app_assoc; reflexivity).
    replace (dpre ++ e :: drest) with ((dpre ++ [e]) ++ drest)
      by (rewrite <- app_assoc; reflexivity).
    replace (S (length before)) with (length (before ++ [(y + e)%dbl]))
      by (rewrite length_app; simpl; lia).
    rewrite IH.
    + rewrite <- app_assoc. reflexivity.
    + rewrite !length_app. simpl. lia.
    + lia.
    + lia.
Qed.

Lemma add_into_eq (n : nat) (delta gradient : list double) :
  n <= length gradient -> n <= length delta ->
  add_into n delta gradient = Ok (add_gradients n delta gradient).
Proof.
  intros Lg Ld. unfold add_into, add_gradients.
  apply (@add_into_from [] delta n [] gradient); [reflexivity | exact Lg | exact Ld].
Qed.

Lemma add_gradients_length (n : nat) (delta gradient : list double) :
  n <= length gradient -> n <= length delta ->
  length (add_gradients n delta gradient) = length gradient.
Proof.
  intros Lg Ld. unfold add_gradients.
  rewrite length_app, length_map, length_combine, !length_firstn, length_skipn. lia.
Qed.

Lemma vec_index_beyond {A : Type} (v : list A) (i : nat) :
  length v <= i -> vec_index v i = Undefined.
Proof.
  intros L. unfold vec_index.
  rewrite (proj2 (nth_error_None v i) L). reflexivity.
Qed.

(** A loop over [a + b] indices is the loop over the first [a] followed by
    the loop over the next [b]. *)
Lemma for_range_split {St : Type} (body : nat -> St -> outcome St) :
  forall a b start st,
    for_range body start (a + b) st =
    (st' <- for_range body start a st ;; for_range body (start + a) b st').
Proof.
  induction a as [| a IH]; intros b start st; simpl.
  - rewrite Nat.add_0_r. reflexivity.
  - destruct (body start st) as [st1 | | |]; simpl; try reflexivity.
    rewrite IH. replace (S start + a) with (start + S a) by lia. reflexivity.
Qed.

(** The loop is undefined as soon as one of the two vectors has fewer than
    [n] entries. *)
Lemma add_into_short (n : nat) (delta gradient : list double) :
  length gradient < n \/ length delta < n ->
  add_into n delta gradient = Undefined.
Proof.
  intros Hshort.
  set (m := Nat.min (length gradient) (length delta)).
  assert (Hm : m < n) by (unfold m; lia).
  replace n with (m + S (n - m - 1)) by lia.
  unfold add_into. rewrite for_range_split.
  fold (add_into m delta gradient).
  rewrite add_into_eq by (unfold m; lia). simpl.
  assert (L : length (add_gradients m delta gradient) = length gradient)
    by (apply add_gradients_length; unfold m; lia).
  destruct (Nat.le_gt_cases (length gradient) (length delta)) as [Hle | Hgt].
  - rewrite (@vec_index_beyond float (add_gradients m delta gradient) m)
      by (unfold m, double in *; lia).
    reflexivity.
  - assert (K : vec_index (add_gradients m delta gradient) m =
                Ok (nth m (add_gradients m delta gradient) d0))
      by (apply vec_index_nth; unfold m in *; lia).
    unfold double in K. rewrite K. cbn [bind].
    rewrite (@vec_index_beyond double delta m) by (unfold m, double in *; lia).
    reflexivity.
Qed.

(** ** Edge behaviour of the data term *)

Section DataTermEdges.
Context `{ImageModelApi}.

Lemma vec_at_int_out_of_range {A : Type} (v : list A) (i : Z) :
  (i < 0 \/ Z.of_nat (length v) <= i)%Z -> vec_at_int v i = OutOfRange.
Proof.
  intros Hout. unfold vec_at_int.
  destruct (Z.ltb_spec i 0) as [Hneg | Hpos]; [reflexivity |].
  unfold vec_at.
  rewrite (proj2 (nth_error_None v (Z.to_nat i))) by lia. reflexivity.
Qed.

Lemma ComputeDataTerm_length (s : IrlsMapSolver) (image_index channel_index : Z)
      (estimated_image_data : double_ptr) (result : double * list double) :
  ComputeDataTermAnalyticalDiff s image_index channel_index estimated_image_data =
  Ok result ->
  length (snd result) = GetNumPixels s.
Proof.
  unfold ComputeDataTermAnalyticalDiff. intros E.
  bind_inv E. bind_inv E. destruct a0 as [rs residuals].
  bind_inv E. bind_inv E. bind_inv E.
  rewrite data_gradient_loop_eq in Ha3. injection Ha3 as <-. injection E as <-.
  simpl. rewrite length_map, length_seq. reflexivity.
Qed.

(** X1. Whenever ComputeDataTermAnalyticalDiff returns, the gradient it
    returns has exactly [num_pixels] entries. *)
Theorem data_term_gradient_length (s : IrlsMapSolver) (image_index channel_index : Z)
        (estimated_image_data : double_ptr) (cost : double) (gradient : list double) :
  ComputeDataTermAnalyticalDiff s image_index channel_index estimated_image_data =
  Ok (cost, gradient) ->
  length gradient = GetNumPixels s.
Proof.
  intros E.
  exact (ComputeDataTerm_length s image_index channel_index estimated_image_data
                                (cost, gradient) E).
Qed.

(** X2. With at least one pixel, a frame index that is negative or not below
    the number of observations makes ComputeDataTermAnalyticalDiff throw
    std::out_of_range (from [observations_.at]), whatever the estimate. *)
Theorem data_term_frame_out_of_range (s : IrlsMapSolver)
        (image_index channel_index : Z) (estimate : list double) :
  0 < GetNumPixels s ->
  (image_index < 0 \/ Z.of_nat (length (observations_ s)) <= image_index)%Z ->
  ComputeDataTermAnalyticalDiff s image_index channel_index (Some estimate) =
  OutOfRange.
Proof.
  intros Hn Hout. unfold ComputeDataTermAnalyticalDiff, data_residual_loop.
  destruct (GetNumPixels s) as [| n]; [lia |]. simpl.
  rewrite (vec_at_int_out_of_range _ _ Hout). reflexivity.
Qed.

(** X3. With no pixel the observations are never looked up: for any frame
    index, valid or not, and a positive scale, the data term is the cost 0
    with an empty gradient. *)
Theorem data_term_without_pixels (s : IrlsMapSolver)
        (image_index channel_index : Z) (estimate : list double) :
  GetNumPixels s = 0 ->
  (0 < GetDownsamplingScale)%Z ->
  ComputeDataTermAnalyticalDiff s image_index channel_index (Some estimate) =
  Ok (d0, []).
Proof.
  intros Hn Hscale. unfold ComputeDataTermAnalyticalDiff, data_residual_loop.
  rewrite Hn. simpl. rewrite !int_div_positive by exact Hscale. reflexivity.
Qed.

(** X4. A downsampling scale of 0 makes the data term of a valid frame
    undefined: the residuals are computed, then the image size is divided by
    the scale. *)
Theorem data_term_zero_scale (s : IrlsMapSolver)
        (image_index channel_index : Z) (estimate : list double)
        (observation : ImageData) :
  GetDownsamplingScale = 0%Z ->
  vec_at_int (observations_ s) image_index = Ok observation ->
  ComputeDataTermAnalyticalDiff s image_index channel_index (Some estimate) =
  Undefined.
Proof.
  intros Hscale Hobs. unfold ComputeDataTermAnalyticalDiff. simpl.
  rewrite (data_residual_loop_eq s image_index channel_index _ (GetNumPixels s) Hobs).
  simpl. rewrite Hscale. reflexivity.
Qed.

End DataTermEdges.

(** ** Success and failure of the regularization term *)

Section RegularizationEdges.
Context `{ImageModelApi}.

(** A loop whose iterations all succeed on states satisfying an invariant
    succeeds, and ends in such a state. *)
Lemma for_range_total {St : Type} (P : St -> Prop) (body : nat -> St -> outcome St) :
  forall count start st,
    P st ->
    (forall i a, start <= i < start + count -> P a ->
                 exists b, body i a = Ok b /\ P b) ->
    exists st', for_range body start count st = Ok st' /\ P st'.
Proof.
  induction count as [| c IH]; intros start st Hst Hstep; simpl.
  - exists st. split; [reflexivity | exact Hst].
  - destruct (Hstep start st ltac:(lia) Hst) as [b [Eb Pb]].
    rewrite Eb. simpl. apply IH; [exact Pb |].
    intros i a Hi. apply Hstep. lia.
Qed.

Lemma vec_at_beyond {A : Type} (v : list A) (i : nat) :
  length v <= i -> vec_at v i = OutOfRange.
Proof.
  intros L. unfold vec_at. rewrite (proj2 (nth_error_None v i) L). reflexivity.
Qed.

Lemma vec_index_found {A : Type} (v : list A) (i : nat) (x : A) :
  nth_error v i = Some x -> vec_index v i = Ok x.
Proof. intros E. unfold vec_index. rewrite E. reflexivity. Qed.

(** One pass over a regularizer whose index is below the number of pixels
    and whose vectors have the problem's size succeeds and keeps the
    gradient's length. *)
Lemma regularizer_pass_ok (s : IrlsMapSolver) (estimate : list double)
      (i : nat) (reg : Regularizer * double) (rs : double) (g : list double) :
  GetNumPixels s <= length (irls_weights_ s) ->
  nth_error (regularizers_ s) i = Some reg ->
  length (ApplyToImage (fst reg) estimate) = GetNumPixels s ->
  (forall coefficients,
      length coefficients = GetNumPixels s ->
      GetNumPixels s <= length (GetDerivatives (fst reg) estimate coefficients)) ->
  i < GetNumPixels s ->
  length g = GetNumPixels s ->
  exists st',
    regularizer_pass s estimate (GetNumPixels s) i (rs, g) = Ok st' /\
    length (snd st') = GetNumPixels s.
Proof.
  intros Hw Hreg Hres Hder Hi Hg. unfold regularizer_pass.
  rewrite (vec_index_found _ _ _ Hreg). simpl.
  assert (Hlt : i < length (ApplyToImage (fst reg) estimate)) by lia.
  destruct (nth_error (ApplyToImage (fst reg) estimate) i) as [r |] eqn:Er;
    [| apply nth_error_None in Er; lia].
  destruct (nth_error_split _ _ Er) as (before & after & Esplit & Lbefore).
  rewrite Esplit in *. subst i.
  rewrite regularization_residual_loop_eq by exact Hw. simpl.
  rewrite partial_const_terms_loop_eq;
    [| exact Hw
     | rewrite length_app in *; simpl in *; lia].
  simpl.
  rewrite add_into_eq;
    [| lia | apply Hder; rewrite length_map, length_seq; reflexivity].
  simpl. eexists. split; [reflexivity |]. simpl.
  rewrite add_gradients_length;
    [exact Hg | lia | apply Hder; rewrite length_map, length_seq; reflexivity].
Qed.

(** One pass over a regularizer whose residual vector has no entry at the
    regularizer's own index reads out of bounds at the first pixel. *)
Lemma regularizer_pass_beyond (s : IrlsMapSolver) (estimate : list double)
      (n i : nat) (reg : Regularizer * double) (st : double * list double) :
  nth_error (regularizers_ s) i = Some reg ->
  length (ApplyToImage (fst reg) estimate) <= i ->
  0 < n ->
  0 < length (irls_weights_ s) ->
  regularizer_pass s estimate n i st = Undefined.
Proof.
  intros Hreg Hres Hn Hw. unfold regularizer_pass. destruct st as [rs g].
  rewrite (vec_index_found _ _ _ Hreg). simpl.
  unfold regularization_residual_loop.
  destruct n as [| n]; [lia |]. simpl.
  rewrite vec_at_nth by exact Hw. simpl.
  rewrite vec_index_beyond by exact Hres. reflexivity.
Qed.

Lemma regularizer_passes_ok (s : IrlsMapSolver) (estimate : list double)
      (count : nat) (st : double * list double) :
  GetNumPixels s <= length (irls_weights_ s) ->
  regularizers_well_sized s estimate ->
  count <= length (regularizers_ s) ->
  count <= GetNumPixels s ->
  length (snd st) = GetNumPixels s ->
  exists st',
    for_range (regularizer_pass s estimate (GetNumPixels s)) 0 count st = Ok st' /\
    length (snd st') = GetNumPixels s.
Proof.
  intros Hw Hsized Hcount Hn Hst.
  apply (for_range_total (fun st => length (snd st) = GetNumPixels s)); [exact Hst |].
  intros i [rs g] Hi Hg. simpl in Hg.
  destruct (nth_error (regularizers_ s) i) as [reg |] eqn:Ereg;
    [| apply nth_error_None in Ereg; lia].
  unfold regularizers_well_sized in Hsized. rewrite Forall_forall in Hsized.
  destruct (Hsized reg (nth_error_In _ _ Ereg)) as [Hres Hder].
  apply (regularizer_pass_ok s estimate i reg rs g Hw Ereg Hres Hder); [lia | exact Hg].
Qed.

Lemma zero_vector_length (n : nat) : length (vec_fill d0 (vec_new n)) = n.
Proof. rewrite vec_fill_repeat. unfold vec_new. rewrite !repeat_length. reflexivity. Qed.

Lemma ComputeRegularization_length (s : IrlsMapSolver)
      (estimated_image_data : double_ptr) (result : double * list double) :
  ComputeRegularizationAnalyticalDiff s estimated_image_data = Ok result ->
  length (snd result) = GetNumPixels s.
Proof.
  unfold ComputeRegularizationAnalyticalDiff. intros E. bind_inv E.
  apply (for_range_invariant
           (fun st : double * list double => length (snd st) = GetNumPixels s)) in E.
  - exact E.
  - intros i [rs g] [rs' g'] _ Hg Epass. simpl in *.
    unfold regularizer_pass in Epass.
    bind_inv Epass. bind_inv Epass. destruct a1 as [residuals rs1].
    bind_inv Epass. bind_inv Epass. injection Epass as _ <-.
    destruct (add_into_frame _ _ _ Ha3) as [L _]. congruence.
  - simpl. apply zero_vector_length.
Qed.

(** X5. Whenever ComputeRegularizationAnalyticalDiff returns, the gradient it
    returns has exactly [num_pixels] entries, whatever the regularizers
    returned. *)
Theorem regularization_gradient_length (s : IrlsMapSolver)
        (estimated_image_data : double_ptr) (cost : double) (gradient : list double) :
  ComputeRegularizationAnalyticalDiff s estimated_image_data = Ok (cost, gradient) ->
  length gradient = GetNumPixels s.
Proof.
  intros E.
  exact (ComputeRegularization_length s estimated_image_data (cost, gradient) E).
Qed.

(** X6. With a weight table covering every pixel, regularizers whose vectors
    have the problem's size, and no more regularizers than pixels,
    ComputeRegularizationAnalyticalDiff returns a cost and a gradient. *)
Theorem regularization_succeeds (s : IrlsMapSolver) (estimate : list double) :
  GetNumPixels s <= length (irls_weights_ s) ->
  regularizers_well_sized s estimate ->
  length (regularizers_ s) <= GetNumPixels s ->
  exists cost gradient,
    ComputeRegularizationAnalyticalDiff s (Some estimate) = Ok (cost, gradient) /\
    length gradient = GetNumPixels s.
Proof.
  intros Hw Hsized Hcount. unfold ComputeRegularizationAnalyticalDiff. simpl.
  destruct (regularizer_passes_ok s estimate (length (regularizers_ s))
              (d0, vec_fill d0 (vec_new (GetNumPixels s)))
              Hw Hsized (Nat.le_refl _) Hcount
              (zero_vector_length (GetNumPixels s)))
    as [[cost gradient] [E L]].
  exists cost, gradient. split; [exact E | exact L].
Qed.

(** X7. With more regularizers than pixels (at least one pixel, everything
    else sized as the problem), ComputeRegularizationAnalyticalDiff is
    undefined: regularizer number [num_pixels] indexes its residual vector,
    of [num_pixels] entries, with its own index. *)
Theorem regularization_more_regularizers_than_pixels
        (s : IrlsMapSolver) (estimate : list double) :
  0 < GetNumPixels s ->
  GetNumPixels s <= length (irls_weights_ s) ->
  regularizers_well_sized s estimate ->
  GetNumPixels s < length (regularizers_ s) ->
  ComputeRegularizationAnalyticalDiff s (Some estimate) = Undefined.
Proof.
  intros Hn Hw Hsized Hmore. unfold ComputeRegularizationAnalyticalDiff. simpl.
  replace (length (regularizers_ s))
    with (GetNumPixels s + S (length (regularizers_ s) - GetNumPixels s - 1)) by lia.
  rewrite for_range_split.
  destruct (regularizer_passes_ok s estimate (GetNumPixels s)
              (d0, vec_fill d0 (vec_new (GetNumPixels s)))
              Hw Hsized ltac:(lia) (Nat.le_refl _)
              (zero_vector_length (GetNumPixels s)))
    as [st' [E _]].
  rewrite E. simpl.
  destruct (nth_error (regularizers_ s) (GetNumPixels s)) as [reg |] eqn:Ereg;
    [| apply nth_error_None in Ereg; lia].
  unfold regularizers_well_sized in Hsized. rewrite Forall_forall in Hsized.
  destruct (Hsized reg (nth_error_In _ _ Ereg)) as [Hres _].
  rewrite (regularizer_pass_beyond s estimate _ _ reg st' Ereg) by lia.
  reflexivity.
Qed.

End RegularizationEdges.

(** ** The first regularizer in closed form *)

Section FirstRegularizer.
Context `{ImageModelApi}.

Lemma regularization_residual_loop_first (s : IrlsMapSolver) (lambda : double)
      (count : nat) (r : double) (others : list double) (acc : double) :
  count <= length (irls_weights_ s) ->
  regularization_residual_loop s 0 lambda count (r :: others) acc =
  Ok (fst (rescaled lambda (firstn count (irls_weights_ s)) r acc) :: others,
      snd (rescaled lambda (firstn count (irls_weights_ s)) r acc)).
Proof.
  intros L.
  apply regularization_residual_loop_eq with (before := @nil double). exact L.
Qed.

(** X8. A weight table with fewer than [num_pixels] entries makes
    ComputeRegularizationAnalyticalDiff throw std::out_of_range (from
    [irls_weights_.at]) in the pass of the first regularizer, provided that
    regularizer returns at least one residual. *)
Theorem regularization_short_weight_table (s : IrlsMapSolver)
        (estimate : list double) (reg : Regularizer * double) :
  nth_error (regularizers_ s) 0 = Some reg ->
  0 < length (ApplyToImage (fst reg) estimate) ->
  length (irls_weights_ s) < GetNumPixels s ->
  ComputeRegularizationAnalyticalDiff s (Some estimate) = OutOfRange.
Proof.
  intros Hreg Hres Hw. unfold ComputeRegularizationAnalyticalDiff. simpl.
  destruct (regularizers_ s) as [| reg0 regs] eqn:Eregs; [discriminate |].
  simpl in Hreg. injection Hreg as ->. simpl.
  unfold regularizer_pass at 1. rewrite Eregs. simpl.
  destruct (ApplyToImage (fst reg) estimate) as [| r others]; [simpl in Hres; lia |].
  set (m := length (irls_weights_ s)) in *.
  replace (GetNumPixels s) with (m + S (GetNumPixels s - m - 1)) at 1 by lia.
  unfold regularization_residual_loop. rewrite for_range_split.
  fold (regularization_residual_loop s 0 (snd reg) m (r :: others) d0).
  rewrite regularization_residual_loop_first by (unfold m; lia).
  simpl. rewrite vec_at_beyond by (unfold m; lia). reflexivity.
Qed.

(** The pass of a single regularizer, in closed form. *)
Lemma single_regularizer_eq (s : IrlsMapSolver)
      (estimate : list double) (reg : Regularizer) (lambda r : double)
      (others : list double) :
  regularizers_ s = [(reg, lambda)] ->
  ApplyToImage reg estimate = r :: others ->
  GetNumPixels s <= length (irls_weights_ s) ->
  GetNumPixels s <= S (length others) ->
  let n := GetNumPixels s in
  let weights := firstn n (irls_weights_ s) in
  let coefficients :=
    partial_const_terms_of lambda (irls_weights_ s)
                           (rescaled_residuals lambda weights r others) n in
  n <= length (GetDerivatives reg estimate coefficients) ->
  ComputeRegularizationAnalyticalDiff s (Some estimate) =
  Ok (snd (rescaled lambda weights r d0),
      add_gradients n (GetDerivatives reg estimate coefficients) (repeat d0 n)).
Proof.
  intros Hregs Hres Hw Hlen n weights coefficients Hder.
  unfold ComputeRegularizationAnalyticalDiff. simpl.
  rewrite Hregs. simpl. unfold regularizer_pass. rewrite Hregs. simpl.
  rewrite Hres.
  rewrite regularization_residual_loop_first by exact Hw. simpl.
  rewrite partial_const_terms_loop_eq; [| exact Hw | simpl; lia]. simpl.
  fold n. fold weights.
  change (map
            (fun p =>
               (d2 * lambda * nth p (irls_weights_ s) d0 *
                nth p (fst (rescaled lambda weights r d0) :: others) d0)%dbl)
            (seq 0 n))
    with coefficients.
  rewrite add_into_eq;
    [| rewrite zero_vector_length; lia | exact Hder].
  simpl. rewrite vec_fill_repeat. unfold vec_new. rewrite repeat_length.
  reflexivity.
Qed.


(** X9. With a single regularizer [(reg, lambda)] whose residuals are
    [r :: others], the cost is the sum of the squares of [r] rescaled once,
    twice, ... [num_pixels] times by [lambda * sqrt(weight_p)], and the
    gradient is what GetDerivatives returns for the coefficients
    [2 * lambda * weight_p * residuals[p]], where only entry 0 of [residuals]
    has been rescaled ([num_pixels] times) and every other entry is the raw
    residual. *)
Theorem regularization_single_regularizer (s : IrlsMapSolver)
        (estimate : list double) (reg : Regularizer) (lambda r : double)
        (others : list double) :
  regularizers_ s = [(reg, lambda)] ->
  ApplyToImage reg estimate = r :: others ->
  GetNumPixels s <= length (irls_weights_ s) ->
  GetNumPixels s <= S (length others) ->
  let n := GetNumPixels s in
  let weights := firstn n (irls_weights_ s) in
  let coefficients :=
    partial_const_terms_of lambda (irls_weights_ s)
                           (rescaled_residuals lambda weights r others) n in
  n <= length (GetDerivatives reg estimate coefficients) ->
  ComputeRegularizationAnalyticalDiff s (Some estimate) =
  Ok (snd (rescaled lambda weights r d0),
      add_gradients n (GetDerivatives reg estimate coefficients) (repeat d0 n)).
Proof.
  intros Hregs Hres Hw Hlen n weights coefficients Hder.
  exact (single_regularizer_eq s estimate reg lambda r others Hregs Hres Hw Hlen Hder).
Qed.

End FirstRegularizer.

(** ** One pixel, one regularizer *)

Section OnePixel.
Context `{ImageModelApi}.

(** X10. On a one-pixel problem with a single regularizer the index slip of
    the scaling loop is invisible: the cost is the specified
    [(lambda * sqrt(weight_0) * residual_0)^2] and the coefficient handed to
    GetDerivatives is the specified [2 * lambda * weight_0 *
    scaled_residual_0]. *)
Theorem regularization_one_pixel (s : IrlsMapSolver) (estimate : list double)
        (reg : Regularizer) (lambda r : double) (others : list double) :
  GetNumPixels s = 1 ->
  regularizers_ s = [(reg, lambda)] ->
  ApplyToImage reg estimate = r :: others ->
  1 <= length (irls_weights_ s) ->
  1 <= length (spec_regularizer_gradient s estimate (reg, lambda)) ->
  ComputeRegularizationAnalyticalDiff s (Some estimate) =
  Ok (spec_regularizer_cost s estimate (reg, lambda),
      add_gradients 1 (spec_regularizer_gradient s estimate (reg, lambda)) [d0]).
Proof.
  intros Hn Hregs Hres Hw Hder.
  assert (Hcoeff :
            partial_const_terms_of lambda (irls_weights_ s)
              (rescaled_residuals lambda (firstn 1 (irls_weights_ s)) r others) 1 =
            spec_upstream_coefficients s estimate (reg, lambda)).
  { unfold partial_const_terms_of, spec_upstream_coefficients,
      rescaled_residuals, spec_scaled_residual.
    cbn [fst snd]. rewrite Hn, Hres. simpl.
    destruct (irls_weights_ s) as [| w0 ws]; [simpl in Hw; lia |]. reflexivity. }
  unfold spec_regularizer_gradient in *. cbn [fst] in *.
  rewrite <- Hcoeff in *.
  pose proof (single_regularizer_eq s estimate reg lambda r others Hregs Hres) as K.
  rewrite Hn in K. rewrite (K Hw ltac:(lia) Hder). clear K.
  f_equal. f_equal.
  unfold spec_regularizer_cost, spec_scaled_residual, sum_doubles.
  cbn [fst snd]. rewrite Hn, Hres. simpl.
  destruct (irls_weights_ s) as [| w0 ws]; [simpl in Hw; lia |]. reflexivity.
Qed.

End OnePixel.

(** ** The objective callback as a sum of terms *)

Section ObjectiveSum.
Context `{ImageModelApi}.

Lemma accumulate_terms_length (n : nat) (data : nat -> double * list double) :
  forall count start st,
    n <= length (snd st) ->
    (forall i, start <= i < start + count -> n <= length (snd (data i))) ->
    length (snd (accumulate_terms n data start count st)) = length (snd st).
Proof.
  unfold accumulate_terms.
  induction count as [| c IH]; intros start st Hst Hdata; simpl; [reflexivity |].
  rewrite IH.
  - simpl. apply add_gradients_length; [exact Hst | apply Hdata; lia].
  - simpl. rewrite add_gradients_length; [exact Hst | exact Hst | apply Hdata; lia].
  - intros i Hi. apply Hdata. lia.
Qed.

(** A loop that asks term after term for its (cost, gradient) pair and adds
    it to the running pair. *)
Lemma terms_loop_eq (n : nat) (term : nat -> outcome (double * list double))
      (data : nat -> double * list double) :
  forall count start st,
    n <= length (snd st) ->
    (forall i, start <= i < start + count ->
               term i = Ok (data i) /\ n <= length (snd (data i))) ->
    for_range
      (fun i '(residual_sum, gradient) =>
         r <- term i ;;
         let residual_sum := (residual_sum + fst r)%dbl in
         gradient <- add_into n (snd r) gradient ;;
         Ok (residual_sum, gradient))
      start count st =
    Ok (accumulate_terms n data start count st).
Proof.
  unfold accumulate_terms.
  induction count as [| c IH]; intros start [rs g] Hst Hdata; simpl in *;
    [reflexivity |].
  destruct (Hdata start ltac:(lia)) as [Eterm Hlen].
  rewrite Eterm. simpl.
  rewrite add_into_eq by assumption. simpl.
  apply IH.
  - simpl. rewrite add_gradients_length; assumption.
  - intros i Hi. apply Hdata. lia.
Qed.

Lemma zero_gradient_short (n : nat) (g : real_1d_array) :
  length g < n -> zero_gradient n g = Undefined.
Proof.
  intros L. rewrite zero_gradient_eq.
  destruct (Nat.leb_spec n (length g)); [lia | reflexivity].
Qed.

(** X11. A gradient buffer with fewer than [num_pixels] entries makes the
    objective callback undefined before any term is computed. *)
Theorem objective_short_gradient_buffer (x : real_1d_array)
        (w : Session IrlsMapSolver) :
  length (gradient_ref w) < GetNumPixels (the_solver w) ->
  AlglibObjectiveFunctionAnalyticalDiff x w = Undefined.
Proof.
  intros L. rewrite objective_zeroes_first.
  rewrite (zero_gradient_short _ _ L). reflexivity.
Qed.

Lemma objective_buffer_frame (x : real_1d_array)
      (w w' : Session IrlsMapSolver) :
  AlglibObjectiveFunctionAnalyticalDiff x w = Ok w' ->
  length (gradient_ref w') = length (gradient_ref w) /\
  skipn (GetNumPixels (the_solver w)) (gradient_ref w') =
  skipn (GetNumPixels (the_solver w)) (gradient_ref w).
Proof.
  intros E.
  destruct (objective_inv _ _ E) as (g0 & rs1 & g1 & rg & g2 & Hz & Hd & Hr & Ha & ->).
  simpl.
  destruct (data_terms_loop_frame _ _ _ _ _ _ Hd) as [L1 K1].
  destruct (add_into_frame _ _ _ Ha) as [L2 K2].
  rewrite zero_gradient_eq in Hz.
  destruct (Nat.leb_spec (GetNumPixels (the_solver w)) (length (gradient_ref w)))
    as [Hn | Hn]; [| discriminate].
  injection Hz as Hz.
  assert (Hlen : length g0 = length (gradient_ref w)).
  { rewrite <- Hz, length_app, repeat_length, length_skipn. lia. }
  assert (Hskip : skipn (GetNumPixels (the_solver w)) g0 =
                  skipn (GetNumPixels (the_solver w)) (gradient_ref w)).
  { rewrite <- Hz at 1. rewrite skipn_app, repeat_length, Nat.sub_diag.
    rewrite skipn_all2 by (rewrite repeat_length; lia). reflexivity. }
  split; congruence.
Qed.


(** X12. A successful evaluation keeps the length of the gradient buffer and
    every entry from index [num_pixels] on. *)
Theorem objective_keeps_buffer_tail (x : real_1d_array)
        (w w' : Session IrlsMapSolver) :
  AlglibObjectiveFunctionAnalyticalDiff x w = Ok w' ->
  length (gradient_ref w') = length (gradient_ref w) /\
  skipn (GetNumPixels (the_solver w)) (gradient_ref w') =
  skipn (GetNumPixels (the_solver w)) (gradient_ref w).
Proof. exact (objective_buffer_frame x w w'). Qed.

(** The callback on a buffer of the problem's dimension, when all its terms
    return. *)
Lemma AnalyticalDiff_sum_eq (x : real_1d_array) (s : IrlsMapSolver)
      (f : double) (g : real_1d_array) (log : list double)
      (data : nat -> double * list double) (reg : double * list double) :
  length g = GetNumPixels s ->
  (forall i, i < GetNumImages s ->
             ComputeDataTermAnalyticalDiff s (Z.of_nat i) 0 (Some x) = Ok (data i)) ->
  ComputeRegularizationAnalyticalDiff s (Some x) = Ok reg ->
  let n := GetNumPixels s in
  let st := accumulate_terms n data 0 (GetNumImages s) (d0, repeat d0 n) in
  AlglibObjectiveFunctionAnalyticalDiff x (mkSession s f g log) =
  Ok (mkSession s (fst st + fst reg)%dbl (add_gradients n (snd reg) (snd st)) log).
Proof.
  intros Lg Hdata Hreg n st.
  rewrite objective_zeroes_first. simpl.
  rewrite (@zero_gradient_exact _ _ Lg). simpl.
  unfold objective_from_zeroed, data_terms_loop.
  assert (Hlens : forall i, 0 <= i < 0 + GetNumImages s ->
                            n <= length (snd (data i))).
  { intros i Hi.
    rewrite (ComputeDataTerm_length s (Z.of_nat i) 0 (Some x) (data i)); [lia |].
    apply Hdata. lia. }
  rewrite (terms_loop_eq n
             (fun i => ComputeDataTermAnalyticalDiff s (Z.of_nat i) 0 (getcontent x))
             data).
  - change (accumulate_terms n data 0 (GetNumImages s)
                             (d0, repeat d0 (GetNumPixels s))) with st.
    destruct st as [rs1 g1] eqn:Est. simpl.
    unfold getcontent. rewrite Hreg. simpl.
    assert (Lg1 : length g1 = n).
    { change g1 with (snd (rs1, g1)). rewrite <- Est. unfold st.
      rewrite accumulate_terms_length; simpl;
        [apply repeat_length | rewrite repeat_length; lia | exact Hlens]. }
    rewrite add_into_eq;
      [reflexivity | lia
       | rewrite (ComputeRegularization_length s (Some x) reg Hreg); lia].
  - simpl. rewrite repeat_length. lia.
  - intros i Hi. split; [apply Hdata; lia | apply Hlens; exact Hi].
Qed.

(** X13. When every data term and the regularization term return, the
    callback returns their sum: the cost is 0 plus the data costs in frame
    order plus the regularization cost, and the gradient is the entrywise
    sum, in the same order, started from zeros; solver and log are handed
    back. *)
Theorem objective_is_sum_of_terms (x : real_1d_array) (s : IrlsMapSolver)
        (f : double) (g : real_1d_array) (log : list double)
        (data : nat -> double * list double) (reg : double * list double) :
  length g = GetNumPixels s ->
  (forall i, i < GetNumImages s ->
             ComputeDataTermAnalyticalDiff s (Z.of_nat i) 0 (Some x) = Ok (data i)) ->
  ComputeRegularizationAnalyticalDiff s (Some x) = Ok reg ->
  let n := GetNumPixels s in
  let st := accumulate_terms n data 0 (GetNumImages s) (d0, repeat d0 n) in
  AlglibObjectiveFunctionAnalyticalDiff x (mkSession s f g log) =
  Ok (mkSession s (fst st + fst reg)%dbl (add_gradients n (snd reg) (snd st)) log).
Proof.
  intros Lg Hdata Hreg n st.
  exact (AnalyticalDiff_sum_eq x s f g log data reg Lg Hdata Hreg).
Qed.

End ObjectiveSum.

(** ** Solve *)

Section SolveEdges.
Context `{ImageModelApi}.

Lemma initialize_irls_weights_stale (weights : list double) (s : IrlsMapSolver) :
  initialize_irls_weights (set_irls_weights weights s) = initialize_irls_weights s.
Proof.
  unfold initialize_irls_weights, set_irls_weights. simpl.
  rewrite !vec_fill_repeat, !vec_resize_length. reflexivity.
Qed.

(** X14. Without any observation Solve is undefined, whatever the minimizer
    and the initial estimate: it reads [observations_[0]] right after
    initialising the weights. *)
Theorem Solve_without_observations (cg : real_1d_array -> Minimizer)
        (s : IrlsMapSolver) (log : list double) (initial_estimate : ImageData) :
  observations_ s = [] ->
  Solve cg s log initial_estimate = Undefined.
Proof.
  intros Hobs. unfold Solve. simpl. rewrite Hobs. reflexivity.
Qed.

(** X15. Solve does not depend on the weight table the solver holds when it
    is called: weights left by an earlier solve, of any length, are
    overwritten before they are read. *)
Theorem Solve_ignores_stale_weights (cg : real_1d_array -> Minimizer)
        (s : IrlsMapSolver) (weights : list double) (log : list double)
        (initial_estimate : ImageData) :
  Solve cg (set_irls_weights weights s) log initial_estimate =
  Solve cg s log initial_estimate.
Proof.
  unfold Solve. rewrite initialize_irls_weights_stale. reflexivity.
Qed.

(** Both callbacks keep the length of the gradient buffer, so a run of the
    minimizer does. *)
Lemma mincgoptimize_keeps_gradient_length (m : Minimizer) :
  forall (w w' : Session IrlsMapSolver) (x : real_1d_array),
    mincgoptimize m AlglibObjectiveFunctionAnalyticalDiff
                  AlglibSolverIterationCallback w = Ok (x, w') ->
    length (gradient_ref w') = length (gradient_ref w).
Proof.
  induction m as [x0 | x0 next IH | x0 f next IH]; intros w w' x E; simpl in E.
  - injection E as _ <-. reflexivity.
  - bind_inv E. rewrite (IH _ _ _ _ _ E).
    apply (objective_buffer_frame x0 w a Ha).
  - apply IH in E. rewrite E. reflexivity.
Qed.

(** X16. When Solve returns, the solver object is the one it initialised:
    same configuration, a weight table of [num_pixels] entries all equal to
    1.0, however many steps the minimizer accepted; and the gradient buffer
    still has [num_pixels] entries. *)
Theorem Solve_returns_initialized_solver (cg : real_1d_array -> Minimizer)
        (s : IrlsMapSolver) (log : list double) (initial_estimate : ImageData)
        (estimated_image : ImageData) (w : Session IrlsMapSolver) :
  Solve cg s log initial_estimate = Ok (estimated_image, w) ->
  the_solver w = initialize_irls_weights s /\
  irls_weights_ (the_solver w) = repeat d1 (GetNumPixels s) /\
  length (gradient_ref w) = GetNumPixels s.
Proof.
  unfold Solve. intros E. bind_inv E. bind_inv E. bind_inv E.
  destruct a1 as [solver_data w1]. injection E as _ <-.
  pose proof (mincgoptimize_keeps_solver _ _ Ha1) as Ks.
  pose proof (mincgoptimize_keeps_gradient_length _ _ _ _ Ha1) as Kg.
  simpl in Ks, Kg. split; [exact Ks |]. split.
  - rewrite Ks. apply initialize_irls_weights_eq.
  - rewrite Kg. unfold vec_new. apply repeat_length.
Qed.

End SolveEdges.

(** ** The objective callback of alglib_irls_objective.cpp *)

Section SecondObjective.
Context `{IrlsObjectiveApi}.

(** X17. A gradient buffer with fewer entries than the solver's pixel count
    makes AlglibObjectiveFunction undefined before any member of the solver
    other than GetNumPixels is called. *)
Theorem AlglibObjectiveFunction_short_gradient_buffer (x : real_1d_array)
        (w : Session ObjectiveSolver) :
  length (gradient_ref w) < Objective_GetNumPixels (the_solver w) ->
  AlglibObjectiveFunction x w = Undefined.
Proof.
  intros L. unfold AlglibObjectiveFunction.
  rewrite (zero_gradient_short _ _ L). reflexivity.
Qed.

(** X18. Whatever the solver's members compute, a successful
    AlglibObjectiveFunction keeps the length of the gradient buffer, every
    entry from the pixel count on, and the log. *)
Theorem AlglibObjectiveFunction_keeps_buffer_tail (x : real_1d_array)
        (w w' : Session ObjectiveSolver) :
  AlglibObjectiveFunction x w = Ok w' ->
  let n := Objective_GetNumPixels (the_solver w) in
  length (gradient_ref w') = length (gradient_ref w) /\
  skipn n (gradient_ref w') = skipn n (gradient_ref w) /\
  info_log w' = info_log w.
Proof.
  intros E n. unfold AlglibObjectiveFunction in E. fold n in E.
  bind_inv E. bind_inv E. destruct a0 as [[t rs1] g1].
  bind_inv E. destruct a0 as [[cost delta] t'].
  bind_inv E. injection E as <-. simpl.
  rewrite zero_gradient_eq in Ha.
  destruct (Nat.leb_spec n (length (gradient_ref w))) as [Hn | Hn]; [| discriminate].
  injection Ha as Hz.
  assert (Hlen : length a = length (gradient_ref w)).
  { rewrite <- Hz, length_app, repeat_length, length_skipn. lia. }
  assert (Hskip : skipn n a = skipn n (gradient_ref w)).
  { rewrite <- Hz at 1. rewrite skipn_app, repeat_length, Nat.sub_diag.
    rewrite skipn_all2 by (rewrite repeat_length; lia). reflexivity. }
  apply (for_range_invariant
           (fun st : ObjectiveSolver * double * real_1d_array =>
              length (snd st) = length a /\ skipn n (snd st) = skipn n a)) in Ha0.
  - simpl in Ha0. destruct Ha0 as [L1 K1].
    destruct (add_into_frame _ _ _ Ha2) as [L2 K2].
    repeat split; congruence.
  - intros i [[ta ra] ga] [[tb rb] gb] _ [La Ka] Estep. simpl in *.
    bind_inv Estep. destruct a1 as [[c d] tc].
    bind_inv Estep. injection Estep as _ _ <-.
    destruct (add_into_frame _ _ _ Ha3) as [L K].
    split; congruence.
  - split; reflexivity.
Qed.

End SecondObjective.

(** ** The list of objective terms *)

Lemma AddTerm_fold (new_terms : list ObjectiveTerm) :
  forall f : ObjectiveFunction,
    let f' := fold_left (fun f objective_term => AddTerm objective_term f) new_terms f in
    terms_ f' = terms_ f ++ new_terms /\
    GetNumCompletedIterations f' = GetNumCompletedIterations f /\
    num_parameters_ f' = num_parameters_ f.
Proof.
  induction new_terms as [| t ts IH]; intros f; simpl.
  - rewrite app_nil_r. repeat split.
  - destruct (IH (AddTerm t f)) as (Ht & Hc & Hp). simpl in *.
    rewrite Ht, Hc, Hp, <- app_assoc. repeat split.
Qed.

(** X19. An ObjectiveFunction built by the constructor and any sequence of
    AddTerm calls holds exactly the added terms, in the order they were
    added, keeps its parameter count, and reports 0 completed iterations. *)
Theorem ObjectiveFunction_terms_in_order (num_parameters : Z)
        (new_terms : list ObjectiveTerm) :
  let f := fold_left (fun f objective_term => AddTerm objective_term f) new_terms
                     (ObjectiveFunction_new num_parameters) in
  terms_ f = new_terms /\
  GetNumCompletedIterations f = 0%Z /\
  num_parameters_ f = num_parameters.
Proof.
  exact (AddTerm_fold new_terms (ObjectiveFunction_new num_parameters)).
Qed.

(** ** The second objective callback as a sum of terms *)

Section SecondObjectiveSum.
Context `{IrlsObjectiveApi}.

Lemma objective_terms_loop_eq (x : real_1d_array) (t : ObjectiveSolver) (n : nat)
      (data : nat -> double * list double) :
  forall count start rs g,
    n <= length g ->
    (forall i, start <= i < start + count ->
               ComputeDataTerm t (Z.of_nat i) (Some x) =
               Ok (fst (data i), snd (data i), t) /\
               n <= length (snd (data i))) ->
    for_range
      (fun image_index '(irls_map_solver, residual_sum, gradient) =>
         '(cost, delta, irls_map_solver) <-
           ComputeDataTerm irls_map_solver (Z.of_nat image_index)
                           (getcontent x) ;;
         let residual_sum := (residual_sum + cost)%dbl in
         gradient <- add_into n delta gradient ;;
         Ok (irls_map_solver, residual_sum, gradient))
      start count (t, rs, g) =
    Ok (t, fst (accumulate_terms n data start count (rs, g)),
        snd (accumulate_terms n data start count (rs, g))).
Proof.
  unfold accumulate_terms.
  induction count as [| c IH]; intros start rs g Hg Hdata; simpl; [reflexivity |].
  destruct (Hdata start ltac:(lia)) as [Eterm Hlen].
  unfold getcontent. rewrite Eterm. simpl.
  rewrite add_into_eq by assumption. simpl.
  apply IH.
  - rewrite add_gradients_length; assumption.
  - intros i Hi. apply Hdata. lia.
Qed.

(** The second callback on a buffer of the problem's dimension, when all its
    terms return. *)
Lemma AlglibObjectiveFunction_sum_eq
      (x : real_1d_array) (t t' : ObjectiveSolver)
      (f : double) (g : real_1d_array) (log : list double)
      (data : nat -> double * list double) (cost : double) (delta : list double) :
  let n := Objective_GetNumPixels t in
  length g = n ->
  (forall i, i < Objective_GetNumImages t ->
             ComputeDataTerm t (Z.of_nat i) (Some x) =
             Ok (fst (data i), snd (data i), t) /\
             n <= length (snd (data i))) ->
  ComputeRegularization t (Some x) = Ok (cost, delta, t') ->
  n <= length delta ->
  let st := accumulate_terms n data 0 (Objective_GetNumImages t) (d0, repeat d0 n) in
  AlglibObjectiveFunction x (mkSession t f g log) =
  Ok (mkSession t' (fst st + cost)%dbl (add_gradients n delta (snd st)) log).
Proof.
  intros n Lg Hdata Hreg Hdelta st.
  unfold AlglibObjectiveFunction. simpl. fold n.
  rewrite (@zero_gradient_exact _ _ Lg). simpl.
  rewrite (objective_terms_loop_eq x t n data).
  - fold st. simpl. unfold getcontent. rewrite Hreg. simpl.
    rewrite add_into_eq; [reflexivity | | exact Hdelta].
    unfold st. rewrite accumulate_terms_length; simpl.
    + rewrite repeat_length. lia.
    + rewrite repeat_length. lia.
    + intros i Hi. apply Hdata. lia.
  - rewrite repeat_length. lia.
  - intros i Hi. apply Hdata. lia.
Qed.

(** X20. When the data terms of the solver return (leaving the solver as it
    was) and the regularization term returns, AlglibObjectiveFunction
    returns their sum: the cost is 0 plus the data costs in frame order plus
    the regularization cost, the gradient is the entrywise sum started from
    zeros, the solver is the one the regularization term returned, and the
    log is kept. *)
Theorem AlglibObjectiveFunction_is_sum_of_terms
        (x : real_1d_array) (t t' : ObjectiveSolver)
        (f : double) (g : real_1d_array) (log : list double)
        (data : nat -> double * list double) (cost : double) (delta : list double) :
  let n := Objective_GetNumPixels t in
  length g = n ->
  (forall i, i < Objective_GetNumImages t ->
             ComputeDataTerm t (Z.of_nat i) (Some x) =
             Ok (fst (data i), snd (data i), t) /\
             n <= length (snd (data i))) ->
  ComputeRegularization t (Some x) = Ok (cost, delta, t') ->
  n <= length delta ->
  let st := accumulate_terms n data 0 (Objective_GetNumImages t) (d0, repeat d0 n) in
  AlglibObjectiveFunction x (mkSession t f g log) =
  Ok (mkSession t' (fst st + cost)%dbl (add_gradients n delta (snd st)) log).
Proof.
  intros n Lg Hdata Hreg Hdelta st.
  exact (AlglibObjectiveFunction_sum_eq x t t' f g log data cost delta
                                        Lg Hdata Hreg Hdelta).
Qed.

End SecondObjectiveSum.

(** ** Empty images and the scaling loop in general *)

Section MoreRegularization.
Context `{ImageModelApi}.

Lemma add_into_nothing (delta gradient : list double) :
  add_into 0 delta gradient = Ok gradient.
Proof. reflexivity. Qed.

(** X21. With no pixel, ComputeRegularizationAnalyticalDiff returns the cost
    0 and an empty gradient for any list of regularizers, whatever their
    vectors hold: every loop over the pixels is empty. *)
Theorem regularization_without_pixels (s : IrlsMapSolver) (estimate : list double) :
  GetNumPixels s = 0 ->
  ComputeRegularizationAnalyticalDiff s (Some estimate) = Ok (d0, []).
Proof.
  intros Hn. unfold ComputeRegularizationAnalyticalDiff. simpl. rewrite Hn. simpl.
  rewrite (for_range_pure _ (fun _ st => st)).
  - assert (K : forall (l : list nat) (st : double * list double),
               fold_left (fun st _ => st) l st = st)
      by (induction l as [| y l IH]; intros st; simpl; [reflexivity | apply IH]).
    rewrite K. reflexivity.
  - intros i [rs g] Hi. unfold regularizer_pass.
    destruct (nth_error (regularizers_ s) i) as [reg |] eqn:Ereg;
      [| apply nth_error_None in Ereg; lia].
    rewrite (vec_index_found _ _ _ Ereg). reflexivity.
Qed.

(** X22. For any regularizer index [i] and a weight table covering the
    pixels, the scaling loop reads and writes entry [i] of the residual
    vector only: every other entry is left as ApplyToImage returned it, and
    entry [i] ends up rescaled once per pixel, each intermediate value having
    been squared into the sum. *)
Theorem scaling_loop_touches_one_entry (s : IrlsMapSolver) (lambda : double)
        (n : nat) (before after : list double) (r acc : double) :
  n <= length (irls_weights_ s) ->
  regularization_residual_loop s (length before) lambda n (before ++ r :: after) acc =
  Ok (before ++ fst (rescaled lambda (firstn n (irls_weights_ s)) r acc) :: after,
      snd (rescaled lambda (firstn n (irls_weights_ s)) r acc)).
Proof.
  intros L. apply regularization_residual_loop_eq. exact L.
Qed.

End MoreRegularization.

(** ** Instances of the further properties *)

Lemma data_term_gradient_length_witness : length [(-4)%float; (-8)%float] = 2.
Proof.
  apply (data_term_gradient_length sample_solver 0 0 (Some sample_estimate) 20%float).
  vm_compute. reflexivity.
Defined.

Lemma data_term_frame_out_of_range_witness :
  ComputeDataTermAnalyticalDiff sample_solver 5 0 (Some sample_estimate) = OutOfRange.
Proof.
  apply (data_term_frame_out_of_range sample_solver 5 0 sample_estimate).
  - simpl. lia.
  - right. simpl. lia.
Defined.

Lemma data_term_without_pixels_witness :
  ComputeDataTermAnalyticalDiff empty_image_solver 7 0 (Some []) = Ok (d0, []).
Proof.
  apply (data_term_without_pixels empty_image_solver 7 0 []).
  - reflexivity.
  - reflexivity.
Defined.

Lemma data_term_zero_scale_witness :
  @ComputeDataTermAnalyticalDiff flat_images zero_scale_model
    sample_solver 0 0 (Some sample_estimate) = Undefined.
Proof.
  apply (@data_term_zero_scale flat_images zero_scale_model
           sample_solver 0 0 sample_estimate
           (mkFlat (mkSize 2 1) [3%float; 5%float])).
  - reflexivity.
  - reflexivity.
Defined.

Lemma regularization_gradient_length_witness : length [16%float; 4%float] = 2.
Proof.
  apply (regularization_gradient_length sample_solver (Some sample_estimate) 20%float).
  vm_compute. reflexivity.
Defined.

Lemma regularization_succeeds_witness :
  exists cost gradient,
    ComputeRegularizationAnalyticalDiff sample_solver (Some sample_estimate) =
    Ok (cost, gradient) /\
    length gradient = GetNumPixels sample_solver.
Proof.
  apply (regularization_succeeds sample_solver sample_estimate).
  - simpl. lia.
  - repeat constructor. intros coefficients Hc. simpl in *. lia.
  - simpl. lia.
Defined.

Lemma regularization_more_regularizers_than_pixels_witness :
  ComputeRegularizationAnalyticalDiff two_regularizer_solver (Some [d1]) = Undefined.
Proof.
  apply (regularization_more_regularizers_than_pixels two_regularizer_solver [d1]).
  - simpl. lia.
  - simpl. lia.
  - repeat constructor; intros coefficients Hc; simpl in *; lia.
  - simpl. lia.
Defined.

Lemma regularization_short_weight_table_witness :
  ComputeRegularizationAnalyticalDiff short_weights_solver (Some sample_estimate) =
  OutOfRange.
Proof.
  apply (regularization_short_weight_table short_weights_solver sample_estimate
           (identity_regularizer, d2)).
  - reflexivity.
  - simpl. lia.
  - simpl. lia.
Defined.

Lemma regularization_single_regularizer_witness :
  ComputeRegularizationAnalyticalDiff sample_solver (Some sample_estimate) =
  Ok (snd (rescaled d2 [d1; d1] d1 d0),
      add_gradients 2
        (partial_const_terms_of d2 [d1; d1] (rescaled_residuals d2 [d1; d1] d1 [d1]) 2)
        [d0; d0]).
Proof.
  apply (regularization_single_regularizer sample_solver sample_estimate
           identity_regularizer d2 d1 [d1]).
  - reflexivity.
  - reflexivity.
  - simpl. lia.
  - simpl. lia.
  - simpl. lia.
Defined.

Lemma regularization_one_pixel_witness :
  ComputeRegularizationAnalyticalDiff one_pixel_solver (Some [3%float]) =
  Ok (spec_regularizer_cost one_pixel_solver [3%float] (identity_regularizer, d2),
      add_gradients 1
        (spec_regularizer_gradient one_pixel_solver [3%float] (identity_regularizer, d2))
        [d0]).
Proof.
  apply (regularization_one_pixel one_pixel_solver [3%float]
           identity_regularizer d2 3%float []).
  - reflexivity.
  - reflexivity.
  - reflexivity.
  - simpl. lia.
  - simpl. lia.
Defined.

Example regularization_on_one_pixel :
  ComputeRegularizationAnalyticalDiff one_pixel_solver (Some [3%float]) =
  Ok (144%float, [192%float]).
Proof. vm_compute. reflexivity. Qed.

Lemma objective_short_gradient_buffer_witness :
  AlglibObjectiveFunctionAnalyticalDiff sample_estimate
    (mkSession sample_solver d0 [9%float] []) = Undefined.
Proof.
  apply (objective_short_gradient_buffer sample_estimate
           (mkSession sample_solver d0 [9%float] [])).
  simpl. lia.
Defined.

Lemma objective_keeps_buffer_tail_witness :
  length [12%float; (-4)%float; 9%float] = length [9%float; 9%float; 9%float] /\
  skipn 2 [12%float; (-4)%float; 9%float] = skipn 2 [9%float; 9%float; 9%float].
Proof.
  apply (objective_keeps_buffer_tail sample_estimate
           (mkSession sample_solver 7%float [9%float; 9%float; 9%float] [])
           (mkSession sample_solver 40%float [12%float; (-4)%float; 9%float] [])).
  vm_compute. reflexivity.
Defined.

Lemma objective_is_sum_of_terms_witness :
  let n := GetNumPixels sample_solver in
  let st := accumulate_terms n (fun _ => sample_data_term) 0
                             (GetNumImages sample_solver) (d0, repeat d0 n) in
  AlglibObjectiveFunctionAnalyticalDiff sample_estimate sample_session =
  Ok (mkSession sample_solver (fst st + fst sample_regularization_term)%dbl
                (add_gradients n (snd sample_regularization_term) (snd st)) []).
Proof.
  apply (objective_is_sum_of_terms sample_estimate sample_solver 7%float
           [9%float; 9%float] [] (fun _ => sample_data_term)
           sample_regularization_term).
  - reflexivity.
  - intros i Hi. simpl in Hi. replace i with 0 by lia. vm_compute. reflexivity.
  - vm_compute. reflexivity.
Defined.

Lemma Solve_without_observations_witness :
  Solve sample_minimizer no_observation_solver []
        (mkFlat (mkSize 2 1) sample_estimate) = Undefined.
Proof.
  apply (Solve_without_observations sample_minimizer no_observation_solver []
           (mkFlat (mkSize 2 1) sample_estimate)).
  reflexivity.
Defined.

Lemma Solve_returns_initialized_solver_witness :
  the_solver (mkSession sample_solver 40%float [12%float; (-4)%float] [40%float]) =
  initialize_irls_weights sample_solver /\
  irls_weights_
    (the_solver (mkSession sample_solver 40%float [12%float; (-4)%float] [40%float])) =
  repeat d1 (GetNumPixels sample_solver) /\
  length (gradient_ref
            (mkSession sample_solver 40%float [12%float; (-4)%float] [40%float])) =
  GetNumPixels sample_solver.
Proof.
  apply (Solve_returns_initialized_solver sample_minimizer sample_solver []
           (mkFlat (mkSize 2 1) sample_estimate)
           (mkFlat (mkSize 2 1) sample_estimate)).
  vm_compute. reflexivity.
Defined.

Lemma AlglibObjectiveFunction_short_gradient_buffer_witness :
  AlglibObjectiveFunction sample_estimate
    (mkSession sample_objective_solver d0 [9%float] []) = Undefined.
Proof.
  apply (AlglibObjectiveFunction_short_gradient_buffer sample_estimate
           (mkSession sample_objective_solver d0 [9%float] [])).
  simpl. lia.
Defined.

Lemma AlglibObjectiveFunction_keeps_buffer_tail_witness :
  let n := Objective_GetNumPixels sample_objective_solver in
  length [d2; d2; 9%float] = length [9%float; 9%float; 9%float] /\
  skipn n [d2; d2; 9%float] = skipn n [9%float; 9%float; 9%float] /\
  @nil double = [].
Proof.
  apply (AlglibObjectiveFunction_keeps_buffer_tail sample_estimate
           (mkSession sample_objective_solver 7%float [9%float; 9%float; 9%float] [])
           (mkSession sample_objective_solver d2 [d2; d2; 9%float] [])).
  vm_compute. reflexivity.
Defined.

Lemma AlglibObjectiveFunction_is_sum_of_terms_witness :
  let n := Objective_GetNumPixels sample_objective_solver in
  let st := accumulate_terms n (fun _ => (d1, [d1; d1])) 0
              (Objective_GetNumImages sample_objective_solver) (d0, repeat d0 n) in
  AlglibObjectiveFunction sample_estimate
    (mkSession sample_objective_solver 7%float [9%float; 9%float] []) =
  Ok (mkSession sample_objective_solver (fst st + d1)%dbl
                (add_gradients n [d1; d1] (snd st)) []).
Proof.
  apply (AlglibObjectiveFunction_is_sum_of_terms sample_estimate
           sample_objective_solver sample_objective_solver 7%float
           [9%float; 9%float] [] (fun _ => (d1, [d1; d1])) d1 [d1; d1]).
  - reflexivity.
  - intros i Hi. split; [reflexivity | simpl; lia].
  - reflexivity.
  - simpl. lia.
Defined.

Lemma regularization_without_pixels_witness :
  ComputeRegularizationAnalyticalDiff empty_image_solver (Some []) = Ok (d0, []).
Proof.
  apply (regularization_without_pixels empty_image_solver []). reflexivity.
Defined.

Lemma scaling_loop_touches_one_entry_witness :
  regularization_residual_loop sample_solver 1 d2 2 [3%float; d1; 5%float] d0 =
  Ok ([3%float; 4%float; 5%float], 20%float).
Proof.
  apply (scaling_loop_touches_one_entry sample_solver d2 2 [3%float] [5%float] d1 d0).
  simpl. lia.
Defined.

(** ** The output references are zeroed first *)

Section ZeroedOutputs.
Context `{ImageModelApi} `{IrlsObjectiveApi}.

(** Zeroing an already zeroed buffer changes nothing. *)
Lemma zero_gradient_twice (n : nat) (g g0 : real_1d_array) :
  zero_gradient n g = Ok g0 -> zero_gradient n g0 = Ok g0.
Proof.
  rewrite !zero_gradient_eq.
  destruct (Nat.leb_spec n (length g)) as [Hn | Hn]; [| discriminate].
  intros E. injection E as <-.
  rewrite length_app, repeat_length, length_skipn.
  destruct (Nat.leb_spec n (n + (length g - n))) as [_ | Hbad]; [| lia].
  rewrite skipn_app, repeat_length, Nat.sub_diag.
  rewrite (skipn_all2 (repeat d0 n)) by (rewrite repeat_length; lia).
  reflexivity.
Qed.

(** The callback is its own zeroing loop, run on the caller's buffer,
    followed by the callback on zeroed outputs. *)
Lemma AnalyticalDiff_zeroing_first (x : real_1d_array) (s : IrlsMapSolver)
      (f : double) (g : real_1d_array) (log : list double) :
  AlglibObjectiveFunctionAnalyticalDiff x (mkSession s f g log) =
  (g0 <- zero_gradient (GetNumPixels s) g ;;
   AlglibObjectiveFunctionAnalyticalDiff x (mkSession s d0 g0 log)).
Proof.
  unfold AlglibObjectiveFunctionAnalyticalDiff. simpl.
  destruct (zero_gradient (GetNumPixels s) g) as [g0 | | |] eqn:Ez; simpl;
    try reflexivity.
  rewrite (zero_gradient_twice _ _ _ Ez). reflexivity.
Qed.

Lemma AlglibObjectiveFunction_zeroing_first (x : real_1d_array) (t : ObjectiveSolver)
      (f : double) (g : real_1d_array) (log : list double) :
  AlglibObjectiveFunction x (mkSession t f g log) =
  (g0 <- zero_gradient (Objective_GetNumPixels t) g ;;
   AlglibObjectiveFunction x (mkSession t d0 g0 log)).
Proof.
  unfold AlglibObjectiveFunction. simpl.
  destruct (zero_gradient (Objective_GetNumPixels t) g) as [g0 | | |] eqn:Ez; simpl;
    try reflexivity.
  rewrite (zero_gradient_twice _ _ _ Ez). reflexivity.
Qed.

(** C9. Both objective functions set the cost to 0 and every one of the
    [num_pixels] gradient entries to 0 before they accumulate any term.
    For each of the two, and for output buffers of the problem's dimension:
    (1) what is returned is the same whatever the cost and gradient outputs
    held before; (2) on any buffer, of any length, the call is the zeroing
    loop run on the caller's buffer followed by the call on zeroed outputs,
    so a buffer too short for the zeroing loop makes the call undefined and
    entries past [num_pixels] are never zeroed; (3) when the terms return,
    the returned cost is 0 plus the terms' costs and the returned gradient is
    the all-zero vector plus the terms' gradients, entry by entry, in call
    order: nothing of the previous contents is accumulated into. *)
Theorem objectives_zero_outputs_first
        (x : real_1d_array) (log : list double)
        (s : IrlsMapSolver) (f1 f2 : double) (g1 g2 : real_1d_array)
        (t : ObjectiveSolver) (c1 c2 : double) (h1 h2 : real_1d_array) :
  length g1 = GetNumPixels s -> length g2 = GetNumPixels s ->
  length h1 = Objective_GetNumPixels t -> length h2 = Objective_GetNumPixels t ->
  (AlglibObjectiveFunctionAnalyticalDiff x (mkSession s f1 g1 log) =
   AlglibObjectiveFunctionAnalyticalDiff x (mkSession s f2 g2 log) /\
   (forall g : real_1d_array,
       AlglibObjectiveFunctionAnalyticalDiff x (mkSession s f1 g log) =
       (g0 <- zero_gradient (GetNumPixels s) g ;;
        AlglibObjectiveFunctionAnalyticalDiff x (mkSession s d0 g0 log)) /\
       (length g < GetNumPixels s ->
        AlglibObjectiveFunctionAnalyticalDiff x (mkSession s f1 g log) = Undefined)) /\
   (forall (data : nat -> double * list double) (reg : double * list double),
       (forall i, i < GetNumImages s ->
                  ComputeDataTermAnalyticalDiff s (Z.of_nat i) 0 (Some x) =
                  Ok (data i)) ->
       ComputeRegularizationAnalyticalDiff s (Some x) = Ok reg ->
       let n := GetNumPixels s in
       let st := accumulate_terms n data 0 (GetNumImages s) (d0, repeat d0 n) in
       AlglibObjectiveFunctionAnalyticalDiff x (mkSession s f1 g1 log) =
       Ok (mkSession s (fst st + fst reg)%dbl
                     (add_gradients n (snd reg) (snd st)) log))) /\
  (AlglibObjectiveFunction x (mkSession t c1 h1 log) =
   AlglibObjectiveFunction x (mkSession t c2 h2 log) /\
   (forall h : real_1d_array,
       AlglibObjectiveFunction x (mkSession t c1 h log) =
       (h0 <- zero_gradient (Objective_GetNumPixels t) h ;;
        AlglibObjectiveFunction x (mkSession t d0 h0 log)) /\
       (length h < Objective_GetNumPixels t ->
        AlglibObjectiveFunction x (mkSession t c1 h log) = Undefined)) /\
   (forall (data : nat -> double * list double) (cost : double)
           (delta : list double) (t' : ObjectiveSolver),
       let n := Objective_GetNumPixels t in
       (forall i, i < Objective_GetNumImages t ->
                  ComputeDataTerm t (Z.of_nat i) (Some x) =
                  Ok (fst (data i), snd (data i), t) /\
                  n <= length (snd (data i))) ->
       ComputeRegularization t (Some x) = Ok (cost, delta, t') ->
       n <= length delta ->
       let st := accumulate_terms n data 0 (Objective_GetNumImages t)
                                  (d0, repeat d0 n) in
       AlglibObjectiveFunction x (mkSession t c1 h1 log) =
       Ok (mkSession t' (fst st + cost)%dbl (add_gradients n delta (snd st)) log))).
Proof.
  intros Lg1 Lg2 Lh1 Lh2. split; split.
  - transitivity (AlglibObjectiveFunctionAnalyticalDiff x
                    (mkSession s d0 (repeat d0 (GetNumPixels s)) log));
      [| symmetry]; apply AnalyticalDiff_zeroes_first; assumption.
  - split.
    + intros g. split.
      * apply AnalyticalDiff_zeroing_first.
      * intros Lshort. rewrite AnalyticalDiff_zeroing_first.
        rewrite (zero_gradient_short _ _ Lshort). reflexivity.
    + intros data reg Hdata Hreg n st.
      exact (AnalyticalDiff_sum_eq x s f1 g1 log data reg Lg1 Hdata Hreg).
  - transitivity (AlglibObjectiveFunction x
                    (mkSession t d0 (repeat d0 (Objective_GetNumPixels t)) log));
      [| symmetry]; apply AlglibObjectiveFunction_zeroes_first; assumption.
  - split.
    + intros h. split.
      * apply AlglibObjectiveFunction_zeroing_first.
      * intros Lshort. rewrite AlglibObjectiveFunction_zeroing_first.
        rewrite (zero_gradient_short _ _ Lshort). reflexivity.
    + intros data cost delta t' n Hdata Hreg Hdelta st.
      exact (AlglibObjectiveFunction_sum_eq x t t' c1 h1 log data cost delta
                                            Lh1 Hdata Hreg Hdelta).
Qed.

End ZeroedOutputs.

Lemma objectives_zero_outputs_first_witness :
  (AlglibObjectiveFunctionAnalyticalDiff sample_estimate
     (mkSession sample_solver 7%float [9%float; 9%float] []) =
   AlglibObjectiveFunctionAnalyticalDiff sample_estimate
     (mkSession sample_solver d0 [d1; d2] []) /\
   AlglibObjectiveFunctionAnalyticalDiff sample_estimate
     (mkSession sample_solver 7%float [9%float] []) = Undefined /\
   AlglibObjectiveFunctionAnalyticalDiff sample_estimate
     (mkSession sample_solver 7%float [9%float; 9%float] []) =
   Ok (mkSession sample_solver
         (fst (accumulate_terms 2 (fun _ => sample_data_term) 0 1 (d0, [d0; d0])) +
          fst sample_regularization_term)%dbl
         (add_gradients 2 (snd sample_regularization_term)
            (snd (accumulate_terms 2 (fun _ => sample_data_term) 0 1 (d0, [d0; d0]))))
         [])) /\
  (AlglibObjectiveFunction sample_estimate
     (mkSession sample_objective_solver 7%float [9%float; 9%float] []) =
   AlglibObjectiveFunction sample_estimate
     (mkSession sample_objective_solver d0 [d1; d2] []) /\
   AlglibObjectiveFunction sample_estimate
     (mkSession sample_objective_solver 7%float [9%float] []) = Undefined /\
   AlglibObjectiveFunction sample_estimate
     (mkSession sample_objective_solver 7%float [9%float; 9%float] []) =
   Ok (mkSession sample_objective_solver
         (fst (accumulate_terms 2 (fun _ => (d1, [d1; d1])) 0 1 (d0, [d0; d0])) + d1)%dbl
         (add_gradients 2 [d1; d1]
            (snd (accumulate_terms 2 (fun _ => (d1, [d1; d1])) 0 1 (d0, [d0; d0]))))
         [])).
Proof.
  destruct (objectives_zero_outputs_first sample_estimate []
              sample_solver 7%float d0 [9%float; 9%float] [d1; d2]
              sample_objective_solver 7%float d0 [9%float; 9%float] [d1; d2]
              eq_refl eq_refl eq_refl eq_refl)
    as [[A1 [A2 A3]] [B1 [B2 B3]]].
  split; split.
  - exact A1.
  - split.
    + apply (A2 [9%float]). simpl. lia.
    + apply (A3 (fun _ => sample_data_term) sample_regularization_term).
      * intros i Hi. simpl in Hi. replace i with 0 by lia. vm_compute. reflexivity.
      * vm_compute. reflexivity.
  - exact B1.
  - split.
    + apply (B2 [9%float]). simpl. lia.
    + apply (B3 (fun _ => (d1, [d1; d1])) d1 [d1; d1] sample_objective_solver).
      * intros i Hi. split; [reflexivity | simpl; lia].
      * reflexivity.
      * simpl. lia.
Defined.
